(** * analysis_by_synthesis/architecture.py: VAE architectures and the ABS ensemble

    A shallow embedding of [architecture.py].  Tensors are a shape together
    with row-major data; tensor entries are real numbers (rounding, infinities
    and NaN of IEEE arithmetic are outside the model, and so is autograd:
    [detach] keeps the values).  Python exceptions are the [Raise] results of
    an error monad; the global random generator and the allocation of
    parameter objects are threaded through a state monad.  The numerical
    semantics of the PyTorch layers that carry weights (convolutions, batch
    normalisation), the random generator and the two collaborators imported
    by the file ([samplewise_loss_function], [get_one_lip_model]) are
    parameters of the development. *)

From Stdlib Require Import String Bool Arith Lia Reals Lra List Permutation.
Import ListNotations.

Set Implicit Arguments.

(** ** Python exceptions *)

Inductive PyError : Type :=
| NotImplementedError (msg : string)
| AssertionError
| TypeError (msg : string)
| ValueError (msg : string)
| RuntimeError (msg : string)
| IndexError (msg : string).

Inductive result (A : Type) : Type :=
| Ok (a : A)
| Raise (e : PyError).

Arguments Ok {A} a.
Arguments Raise {A} e.

Definition rbind {A B : Type} (r : result A) (k : A -> result B) : result B :=
  match r with
  | Ok a => k a
  | Raise e => Raise e
  end.

Fixpoint rmapM {A B : Type} (f : A -> result B) (l : list A) : result (list B) :=
  match l with
  | [] => Ok []
  | a :: l' => rbind (f a) (fun b => rbind (rmapM f l') (fun bs => Ok (b :: bs)))
  end.

Declare Scope res_scope.
Delimit Scope res_scope with res.
Notation "x <- e ;; k" := (rbind e (fun x => k))
  (at level 61, e at next level, right associativity) : res_scope.
Notation "' p <- e ;; k" := (rbind e (fun p => k))
  (at level 61, p pattern, e at next level, right associativity) : res_scope.

(** ** Tensors *)

Record Tensor : Type := mkTensor { shape : list nat; data : list R }.

Definition numel_of (s : list nat) : nat := fold_right Nat.mul 1 s.

Definition numel (t : Tensor) : nat := numel_of (shape t).

(** [Tensor.dim()] *)
Definition dim (t : Tensor) : nat := length (shape t).

(** The size of the leading dimension; for an image batch, the batch size. *)
Definition leading (t : Tensor) : option nat := hd_error (shape t).

(** Every tensor the library hands out has as many entries as its shape says. *)
Definition wf (t : Tensor) : Prop := length (data t) = numel (t).

Definition shape_eqb (s1 s2 : list nat) : bool :=
  if list_eq_dec Nat.eq_dec s1 s2 then true else false.

Definition tmap (f : R -> R) (t : Tensor) : Tensor :=
  mkTensor (shape t) (map f (data t)).

Definition slice (off len : nat) (l : list R) : list R := firstn len (skipn off l).

(** Row-major offset of a multi-index, [None] when it is out of range or has
    the wrong number of components. *)
Fixpoint flat_index (s idx : list nat) : option nat :=
  match s, idx with
  | [], [] => Some 0
  | d :: s', i :: idx' =>
      if i <? d
      then option_map (fun o => i * numel_of s' + o) (flat_index s' idx')
      else None
  | _, _ => None
  end.

(** [t[i0][i1]...] down to a scalar entry. *)
Definition item (t : Tensor) (idx : list nat) : option R :=
  match flat_index (shape t) idx with
  | Some o => nth_error (data t) o
  | None => None
  end.

(** [torch.stack(tensors)] along a new leading axis. *)
Definition stack (ts : list Tensor) : result Tensor :=
  match ts with
  | [] => Raise (RuntimeError "stack expects a non-empty TensorList")
  | t0 :: _ =>
      if forallb (fun t => shape_eqb (shape t) (shape t0)) ts
      then Ok (mkTensor (length ts :: shape t0) (flat_map data ts))
      else Raise (RuntimeError "stack expects each tensor to be equal size")
  end.

(** [t.transpose(0, 1)] *)
Definition transpose01 (t : Tensor) : result Tensor :=
  match shape t with
  | d0 :: d1 :: rest =>
      let blk := numel_of rest in
      Ok (mkTensor (d1 :: d0 :: rest)
            (flat_map (fun j =>
               flat_map (fun i => slice ((i * d1 + j) * blk) blk (data t)) (seq 0 d0))
               (seq 0 d1)))
  | _ => Raise (IndexError "Dimension out of range")
  end.

(** Unary minus. *)
Definition neg (t : Tensor) : Tensor := tmap Ropp t.

(** [t.detach()]: the same values, cut off from the gradient graph. *)
Definition detach (t : Tensor) : Tensor := t.

(** [torch.exp] and multiplication by a Python float. *)
Definition texp (t : Tensor) : Tensor := tmap exp t.
Definition scale (c : R) (t : Tensor) : Tensor := tmap (Rmult c) t.

(** *** Broadcasting *)

Definition pad_shape (s : list nat) (n : nat) : list nat :=
  repeat 1 (n - length s) ++ s.

Fixpoint omapM {A B : Type} (f : A -> option B) (l : list A) : option (list B) :=
  match l with
  | [] => Some []
  | a :: l' =>
      match f a, omapM f l' with
      | Some b, Some bs => Some (b :: bs)
      | _, _ => None
      end
  end.

Definition chunks (n size : nat) (d : list R) : list (list R) :=
  map (fun i => slice (i * size) size d) (seq 0 n).

(** Data of a tensor of shape [s] expanded to shape [t] of the same rank: a
    dimension is kept when the sizes agree and repeated when the source has 1. *)
Fixpoint expand_aligned (s t : list nat) (d : list R) : option (list R) :=
  match s, t with
  | [], [] => Some d
  | e :: s', n :: t' =>
      if e =? n
      then option_map (@concat R) (omapM (expand_aligned s' t') (chunks e (numel_of s') d))
      else if e =? 1
      then option_map (fun x => concat (repeat x n)) (expand_aligned s' t' d)
      else None
  | _, _ => None
  end.

Definition expand (x : Tensor) (target : list nat) : option (list R) :=
  if length (shape x) <=? length target
  then expand_aligned (pad_shape (shape x) (length target)) target (data x)
  else None.

Fixpoint broadcast_aligned (s1 s2 : list nat) : option (list nat) :=
  match s1, s2 with
  | [], [] => Some []
  | a :: s1', b :: s2' =>
      match broadcast_aligned s1' s2' with
      | Some r =>
          if a =? b then Some (a :: r)
          else if a =? 1 then Some (b :: r)
          else if b =? 1 then Some (a :: r)
          else None
      | None => None
      end
  | _, _ => None
  end.

Definition broadcast_shapes (s1 s2 : list nat) : option (list nat) :=
  let n := Nat.max (length s1) (length s2) in
  broadcast_aligned (pad_shape s1 n) (pad_shape s2 n).

Fixpoint zip_with (f : R -> R -> R) (l1 l2 : list R) : list R :=
  match l1, l2 with
  | a :: l1', b :: l2' => f a b :: zip_with f l1' l2'
  | _, _ => []
  end.

(** [a.mul(b)]: a new tensor of the broadcast shape. *)
Definition mul (a b : Tensor) : result Tensor :=
  match broadcast_shapes (shape a) (shape b) with
  | Some s =>
      match expand a s, expand b s with
      | Some da, Some db => Ok (mkTensor s (zip_with Rmult da db))
      | _, _ => Raise (RuntimeError "The size of tensor a must match the size of tensor b")
      end
  | None => Raise (RuntimeError "The size of tensor a must match the size of tensor b")
  end.

(** [self.add_(other)]: in place, so [other] is broadcast to the shape of [self]. *)
Definition add_ (self other : Tensor) : result Tensor :=
  match expand other (shape self) with
  | Some d => Ok (mkTensor (shape self) (zip_with Rplus (data self) d))
  | None => Raise (RuntimeError "output with shape doesn't match the broadcast shape")
  end.

(** *** Activations *)

(** [nn.ELU()] with its default [alpha = 1]. *)
Definition elu (x : R) : R := if Rlt_dec 0 x then x else (exp x - 1)%R.

(** [nn.Sigmoid()] *)
Definition sigmoid (x : R) : R := (1 / (1 + exp (- x)))%R.

(** ** Module objects

    A parameter is an object with an identity ([pid], what Python's [is]
    compares) and a value.  The classes of [torch.nn] used by the file are
    records of their hyper-parameters and parameters. *)

Record Param : Type := mkParam { pid : nat; pdata : Tensor }.

Record Conv2d : Type := mkConv2d {
  conv_in : nat; conv_out : nat; conv_kernel : nat; conv_stride : nat;
  conv_weight : Param; conv_bias : Param }.

Record ConvTranspose2d : Type := mkConvTranspose2d {
  convT_in : nat; convT_out : nat; convT_kernel : nat; convT_stride : nat;
  convT_weight : Param; convT_bias : Param }.

(** The running statistics of a batch normalisation are buffers, not
    parameters; they belong to its forward pass, a parameter of the
    development. *)
Record BatchNorm2d : Type := mkBatchNorm2d {
  bn_features : nat; bn_weight : Param; bn_bias : Param; bn_training : bool }.

(** [nn.Sigmoid] has no state. *)
Inductive Sigmoid : Type := mkSigmoid.

(** The children an [nn.Sequential] of this file can hold. *)
Inductive Layer : Type :=
| Conv2dL (c : Conv2d)
| ConvTranspose2dL (c : ConvTranspose2d)
| BatchNorm2dL (b : BatchNorm2d)
| ELUL.

Definition Sequential : Type := list Layer.

Record Encoder : Type := mkEncoder {
  enc_shared : Sequential; enc_conv_mu : Conv2d; enc_conv_logvar : Conv2d }.

Record Decoder : Type := mkDecoder {
  dec_layers : Sequential; dec_sigmoid : Sigmoid }.

Record ColorEncoder : Type := mkColorEncoder {
  cenc_shared : Sequential; cenc_conv_mu : Conv2d; cenc_conv_logvar : Conv2d }.

Record ColorDecoder : Type := mkColorDecoder {
  cdec_layers : Sequential; cdec_sigmoid : Sigmoid }.

(** What [VAE.encoder] and [VAE.decoder] can hold. *)
Inductive EncoderModule : Type :=
| GrayEncoder (e : Encoder)
| ColEncoder (e : ColorEncoder).

Inductive DecoderModule : Type :=
| GrayDecoder (d : Decoder)
| ColDecoder (d : ColorDecoder).

Record VAE : Type := mkVAE {
  n_latents : nat; encoder : EncoderModule; decoder : DecoderModule; training : bool }.

Record ABS : Type := mkABS {
  beta : R; loss_f : string; base_models : list VAE;
  encoder_parameters : list Param; decoder_parameters : list Param }.

(** The fields of the [args] namespace that [get_base_model] reads. *)
Record Args : Type := mkArgs { base_model : string; n_latents_per_class : nat }.

(** Positional arguments of a Python call. *)
Inductive PyVal : Type :=
| PyInt (n : nat)
| PyBool (b : bool).

Definition int_of (v : PyVal) : nat :=
  match v with
  | PyInt n => n
  | PyBool b => if b then 1 else 0
  end.

Definition truthy (v : PyVal) : bool :=
  match v with
  | PyInt n => negb (n =? 0)
  | PyBool b => b
  end.

(** *** [nn.Module.parameters()] *)

Definition Conv2d_members (c : Conv2d) : list Param := [conv_weight c; conv_bias c].

Definition ConvTranspose2d_members (c : ConvTranspose2d) : list Param :=
  [convT_weight c; convT_bias c].

Definition BatchNorm2d_members (b : BatchNorm2d) : list Param := [bn_weight b; bn_bias b].

Definition Layer_members (l : Layer) : list Param :=
  match l with
  | Conv2dL c => Conv2d_members c
  | ConvTranspose2dL c => ConvTranspose2d_members c
  | BatchNorm2dL b => BatchNorm2d_members b
  | ELUL => []
  end.

Definition Sequential_members (ls : Sequential) : list Param := flat_map Layer_members ls.

Definition Encoder_members (e : Encoder) : list Param :=
  Sequential_members (enc_shared e) ++ Conv2d_members (enc_conv_mu e)
    ++ Conv2d_members (enc_conv_logvar e).

Definition ColorEncoder_members (e : ColorEncoder) : list Param :=
  Sequential_members (cenc_shared e) ++ Conv2d_members (cenc_conv_mu e)
    ++ Conv2d_members (cenc_conv_logvar e).

Definition Decoder_members (d : Decoder) : list Param := Sequential_members (dec_layers d).

Definition ColorDecoder_members (d : ColorDecoder) : list Param :=
  Sequential_members (cdec_layers d).

Definition EncoderModule_members (e : EncoderModule) : list Param :=
  match e with
  | GrayEncoder e => Encoder_members e
  | ColEncoder e => ColorEncoder_members e
  end.

Definition DecoderModule_members (d : DecoderModule) : list Param :=
  match d with
  | GrayDecoder d => Decoder_members d
  | ColDecoder d => ColorDecoder_members d
  end.

Definition VAE_members (v : VAE) : list Param :=
  EncoderModule_members (encoder v) ++ DecoderModule_members (decoder v).

(** The traversal yields each parameter object once: a memo of the identities
    seen so far. *)
Fixpoint dedup (seen : list nat) (l : list Param) : list Param :=
  match l with
  | [] => []
  | p :: l' =>
      if existsb (Nat.eqb (pid p)) seen
      then dedup seen l'
      else p :: dedup (pid p :: seen) l'
  end.

(** [module.parameters()] for the module kinds the file asks. *)
Definition encoder_params (v : VAE) : list Param :=
  dedup [] (EncoderModule_members (encoder v)).

Definition decoder_params (v : VAE) : list Param :=
  dedup [] (DecoderModule_members (decoder v)).

Definition ModuleList_parameters (ms : list VAE) : list Param :=
  dedup [] (flat_map VAE_members ms).

(** *** [nn.Module.train(mode)] and [eval()] *)

Definition Layer_train (mode : bool) (l : Layer) : Layer :=
  match l with
  | BatchNorm2dL b =>
      BatchNorm2dL (mkBatchNorm2d (bn_features b) (bn_weight b) (bn_bias b) mode)
  | _ => l
  end.

Definition EncoderModule_train (mode : bool) (e : EncoderModule) : EncoderModule :=
  match e with
  | GrayEncoder e =>
      GrayEncoder (mkEncoder (map (Layer_train mode) (enc_shared e))
                     (enc_conv_mu e) (enc_conv_logvar e))
  | ColEncoder e =>
      ColEncoder (mkColorEncoder (map (Layer_train mode) (cenc_shared e))
                    (cenc_conv_mu e) (cenc_conv_logvar e))
  end.

Definition DecoderModule_train (mode : bool) (d : DecoderModule) : DecoderModule :=
  match d with
  | GrayDecoder d => GrayDecoder (mkDecoder (map (Layer_train mode) (dec_layers d)) (dec_sigmoid d))
  | ColDecoder d =>
      ColDecoder (mkColorDecoder (map (Layer_train mode) (cdec_layers d)) (cdec_sigmoid d))
  end.

Definition VAE_train (mode : bool) (v : VAE) : VAE :=
  mkVAE (n_latents v) (EncoderModule_train mode (encoder v))
    (DecoderModule_train mode (decoder v)) mode.

Definition VAE_eval (v : VAE) : VAE := VAE_train false v.

(** The star-unpacked [zip] of the outputs, bound to three names. *)
Definition unzip3 (outputs : list (Tensor * Tensor * Tensor))
  : result (list Tensor * list Tensor * list Tensor) :=
  match outputs with
  | [] => Raise (ValueError "not enough values to unpack (expected 3, got 0)")
  | _ => Ok (map (fun o => fst (fst o)) outputs,
             map (fun o => snd (fst o)) outputs,
             map (fun o => snd o) outputs)
  end.

(** The [assert] statement, for an interpreter that runs with assertions on. *)
Definition py_assert (b : bool) : result unit :=
  if b then Ok tt else Raise AssertionError.

(** ** A small instance of the parameters

    A counter for the state of the random generator, layers that pass their
    input on and a squared-error loss per sample: what the properties below
    are run on. *)

Definition toy_randn (n : nat) (g : nat) : list R * nat :=
  (map (fun i => INR (g + i)) (seq 0 n), g + n).

Definition toy_init (n : nat) (g : nat) : list R * nat := (repeat 0%R n, S g).

Definition toy_conv2d (_ : Conv2d) (x : Tensor) : result Tensor := Ok x.
Definition toy_convT (_ : ConvTranspose2d) (x : Tensor) : result Tensor := Ok x.
Definition toy_bn (_ : BatchNorm2d) (x : Tensor) : result Tensor := Ok x.

Definition sum_list (l : list R) : R := fold_right Rplus 0%R l.

(** Per sample, the sum of the squared differences between input and
    reconstruction. *)
Definition toy_loss (x rec mu logvar : Tensor) (beta : R) (kind : string) : result Tensor :=
  match shape x with
  | [] => Raise (IndexError "dimension specified as 0 but tensor has no dimensions")
  | b :: rest =>
      Ok (mkTensor [b]
            (map sum_list
               (chunks b (numel_of rest)
                  (zip_with (fun u v => ((u - v) * (u - v))%R) (data x) (data rec)))))
  end.

(** A batch of two grey images of one pixel. *)
Definition toy_x : Tensor := mkTensor [2; 1; 1; 1] [0%R; 1%R].

Definition is_ok {A : Type} (r : result A) : bool :=
  match r with
  | Ok _ => true
  | Raise _ => false
  end.

Definition toy_mu : Tensor := mkTensor [2] [1%R; 2%R].
Definition toy_logvar : Tensor := mkTensor [2] [0%R; 3%R].

Section Architecture.

(** ** The library and the collaborators *)

(** The state of the global random generator. *)
Variable RNG : Type.

(** [n] draws from the standard normal distribution. *)
Variable randn : nat -> RNG -> list R * RNG.

(** The default initialiser of a convolution's weight or bias of [n] entries. *)
Variable init_uniform : nat -> RNG -> list R * RNG.

(** The forward passes of the layers that carry weights. *)
Variable conv2d : Conv2d -> Tensor -> result Tensor.
Variable conv_transpose2d : ConvTranspose2d -> Tensor -> result Tensor.
Variable batch_norm2d : BatchNorm2d -> Tensor -> result Tensor.

(** [loss_functions.samplewise_loss_function(x, rec, mu, logvar, beta, loss_f=...)] *)
Variable samplewise_loss_function :
  Tensor -> Tensor -> Tensor -> Tensor -> R -> string -> result Tensor.

(** ** The world: fresh identities and the random generator *)

Record World : Type := mkWorld { next_id : nat; rng : RNG }.

Definition M (A : Type) : Type := World -> result A * World.

Definition ret {A : Type} (a : A) : M A := fun w => (Ok a, w).

Definition raise {A : Type} (e : PyError) : M A := fun w => (Raise e, w).

Definition lift {A : Type} (r : result A) : M A := fun w => (r, w).

Definition bind {A B : Type} (m : M A) (k : A -> M B) : M B :=
  fun w =>
    let (r, w') := m w in
    match r with
    | Ok a => k a w'
    | Raise e => (Raise e, w')
    end.

Declare Scope world_scope.
Delimit Scope world_scope with world.
Notation "x <- e ;; k" := (bind e (fun x => k))
  (at level 61, e at next level, right associativity) : world_scope.
Notation "' p <- e ;; k" := (bind e (fun p => k))
  (at level 61, p pattern, e at next level, right associativity) : world_scope.

Fixpoint mapM {A B : Type} (f : A -> M B) (l : list A) : M (list B) :=
  match l with
  | [] => ret []
  | a :: l' => (b <- f a ;; bs <- mapM f l' ;; ret (b :: bs))%world
  end.

(** [nn.Parameter(t)]: a new object. *)
Definition new_parameter (t : Tensor) : M Param :=
  fun w => (Ok (mkParam (next_id w) t), mkWorld (S (next_id w)) (rng w)).

Definition draw_init (s : list nat) : M Tensor :=
  fun w => (Ok (mkTensor s (fst (init_uniform (numel_of s) (rng w)))),
            mkWorld (next_id w) (snd (init_uniform (numel_of s) (rng w)))).

(** [torch.randn_like(t)] *)
Definition randn_like (t : Tensor) : M Tensor :=
  fun w => (Ok (mkTensor (shape t) (fst (randn (numel t) (rng w)))),
            mkWorld (next_id w) (snd (randn (numel t) (rng w)))).

Definition full (s : list nat) (v : R) : Tensor := mkTensor s (repeat v (numel_of s)).

(** ** Constructors of the library layers *)

(** [nn.Conv2d(cin, cout, k, stride=s)]; the stride defaults to 1. *)
Definition Conv2d_new (cin cout k s : nat) : M Conv2d :=
  (wt <- draw_init [cout; cin; k; k] ;;
   w <- new_parameter wt ;;
   bt <- draw_init [cout] ;;
   b <- new_parameter bt ;;
   ret (mkConv2d cin cout k s w b))%world.

(** [nn.ConvTranspose2d(cin, cout, k, stride=s)] *)
Definition ConvTranspose2d_new (cin cout k s : nat) : M ConvTranspose2d :=
  (wt <- draw_init [cin; cout; k; k] ;;
   w <- new_parameter wt ;;
   bt <- draw_init [cout] ;;
   b <- new_parameter bt ;;
   ret (mkConvTranspose2d cin cout k s w b))%world.

(** [nn.BatchNorm2d(n)]: weight ones, bias zeros, in training mode. *)
Definition BatchNorm2d_new (n : nat) : M BatchNorm2d :=
  (w <- new_parameter (full [n] 1%R) ;;
   b <- new_parameter (full [n] 0%R) ;;
   ret (mkBatchNorm2d n w b true))%world.

Definition conv (cin cout k s : nat) : M Layer :=
  (c <- Conv2d_new cin cout k s ;; ret (Conv2dL c))%world.

Definition convT (cin cout k s : nat) : M Layer :=
  (c <- ConvTranspose2d_new cin cout k s ;; ret (ConvTranspose2dL c))%world.

Definition bnorm (n : nat) : M Layer :=
  (b <- BatchNorm2d_new n ;; ret (BatchNorm2dL b))%world.

(** [nn.Sequential(l1, l2, ...)]: the arguments are evaluated left to right. *)
Definition Sequential_new (ls : list (M Layer)) : M Sequential := mapM (fun m => m) ls.

(** ** The classes of the file *)

(** [Encoder.__init__] *)
Definition Encoder_init (n_latents : nat) : M Encoder :=
  (shared <- Sequential_new
     [ conv 1 32 5 1; bnorm 32; ret ELUL;
       conv 32 32 4 2; bnorm 32; ret ELUL;
       conv 32 64 3 2; bnorm 64; ret ELUL ] ;;
   conv_mu <- Conv2d_new 64 n_latents 5 1 ;;
   conv_logvar <- Conv2d_new 64 n_latents 5 1 ;;
   ret (mkEncoder shared conv_mu conv_logvar))%world.

(** [Decoder.__init__] *)
Definition Decoder_init (n_latents : nat) : M Decoder :=
  (layers <- Sequential_new
     [ convT n_latents 32 4 1; bnorm 32; ret ELUL;
       convT 32 16 5 2; bnorm 16; ret ELUL;
       convT 16 16 5 2; bnorm 16; ret ELUL;
       convT 16 1 4 1 ] ;;
   ret (mkDecoder layers mkSigmoid))%world.

(** [ColorEncoder.__init__] *)
Definition ColorEncoder_init (n_latents : nat) : M ColorEncoder :=
  (shared <- Sequential_new
     [ conv 3 32 5 1; bnorm 32; ret ELUL;
       conv 32 32 4 2; bnorm 32; ret ELUL;
       conv 32 32 3 1; bnorm 32; ret ELUL;
       conv 32 64 3 2; bnorm 64; ret ELUL ] ;;
   conv_mu <- Conv2d_new 64 n_latents 5 1 ;;
   conv_logvar <- Conv2d_new 64 n_latents 5 1 ;;
   ret (mkColorEncoder shared conv_mu conv_logvar))%world.

(** [ColorDecoder.__init__] *)
Definition ColorDecoder_init (n_latents : nat) : M ColorDecoder :=
  (layers <- Sequential_new
     [ convT n_latents 32 4 1; bnorm 32; ret ELUL;
       convT 32 32 5 2; bnorm 32; ret ELUL;
       convT 32 16 3 1; bnorm 16; ret ELUL;
       convT 16 16 5 2; bnorm 16; ret ELUL;
       convT 16 3 4 1 ] ;;
   ret (mkColorDecoder layers mkSigmoid))%world.

(** Forward pass of one child of a [Sequential]. *)
Definition Layer_forward (l : Layer) (x : Tensor) : result Tensor :=
  match l with
  | Conv2dL c => conv2d c x
  | ConvTranspose2dL c => conv_transpose2d c x
  | BatchNorm2dL b => batch_norm2d b x
  | ELUL => Ok (tmap elu x)
  end.

Fixpoint Sequential_forward (ls : Sequential) (x : Tensor) : result Tensor :=
  match ls with
  | [] => Ok x
  | l :: ls' => (y <- Layer_forward l x ;; Sequential_forward ls' y)%res
  end.

Definition Sigmoid_forward (_ : Sigmoid) (x : Tensor) : Tensor := tmap sigmoid x.

(** [Encoder.forward] *)
Definition Encoder_forward (self : Encoder) (x : Tensor) : result (Tensor * Tensor) :=
  (shared <- Sequential_forward (enc_shared self) x ;;
   mu <- conv2d (enc_conv_mu self) shared ;;
   logvar <- conv2d (enc_conv_logvar self) shared ;;
   Ok (mu, logvar))%res.

(** [Decoder.forward] *)
Definition Decoder_forward (self : Decoder) (x : Tensor) : result Tensor :=
  (x <- Sequential_forward (dec_layers self) x ;;
   Ok (Sigmoid_forward (dec_sigmoid self) x))%res.

(** [ColorEncoder.forward] *)
Definition ColorEncoder_forward (self : ColorEncoder) (x : Tensor)
  : result (Tensor * Tensor) :=
  (shared <- Sequential_forward (cenc_shared self) x ;;
   mu <- conv2d (cenc_conv_mu self) shared ;;
   logvar <- conv2d (cenc_conv_logvar self) shared ;;
   Ok (mu, logvar))%res.

(** [ColorDecoder.forward] *)
Definition ColorDecoder_forward (self : ColorDecoder) (x : Tensor) : result Tensor :=
  (x <- Sequential_forward (cdec_layers self) x ;;
   Ok (Sigmoid_forward (cdec_sigmoid self) x))%res.

Definition EncoderModule_forward (e : EncoderModule) (x : Tensor) : result (Tensor * Tensor) :=
  match e with
  | GrayEncoder e => Encoder_forward e x
  | ColEncoder e => ColorEncoder_forward e x
  end.

Definition DecoderModule_forward (d : DecoderModule) (x : Tensor) : result Tensor :=
  match d with
  | GrayDecoder d => Decoder_forward d x
  | ColDecoder d => ColorDecoder_forward d x
  end.

(** [VAE.__init__(self, n_latents, color=False)] *)
Definition VAE_init (n_latents : nat) (color : bool) : M VAE :=
  if color
  then (e <- ColorEncoder_init n_latents ;;
        d <- ColorDecoder_init n_latents ;;
        ret (mkVAE n_latents (ColEncoder e) (ColDecoder d) true))%world
  else (e <- Encoder_init n_latents ;;
        d <- Decoder_init n_latents ;;
        ret (mkVAE n_latents (GrayEncoder e) (GrayDecoder d) true))%world.

(** [VAE.reparameterize] *)
Definition reparameterize (self : VAE) (mu logvar : Tensor) : M Tensor :=
  if training self
  then (let std := texp (scale 0.5%R logvar) in
        eps <- randn_like std ;;
        lift (t <- mul eps std ;; add_ t mu)%res)%world
  else ret mu.

(** [VAE.forward] *)
Definition VAE_forward (self : VAE) (x : Tensor) : M (Tensor * Tensor * Tensor) :=
  ('(mu, logvar) <- lift (EncoderModule_forward (encoder self) x) ;;
   z <- reparameterize self mu logvar ;;
   rec <- lift (DecoderModule_forward (decoder self) z) ;;
   ret (rec, mu, logvar))%world.

(** A Python callable that yields a base model, applied to positional arguments. *)
Definition Callable : Type := list PyVal -> M VAE.

(** The class [VAE] called as a function: its arguments are bound to
    [(n_latents, color=False)]. *)
Definition VAE_class : Callable :=
  fun args =>
    match args with
    | [] => raise (TypeError "__init__() missing 1 required positional argument: 'n_latents'")
    | [n] => VAE_init (int_of n) false
    | [n; c] => VAE_init (int_of n) (truthy c)
    | _ => raise (TypeError "__init__() takes from 2 to 3 positional arguments")
    end.

(** [ABS.__init__] with every argument given. *)
Definition ABS_init (n_classes : nat) (beta : R) (color : bool) (logit_scale : R)
    (base_model_f : Callable) (loss_f : string) : M ABS :=
  (base_models <- mapM (fun _ => base_model_f []) (seq 0 n_classes) ;;
   ret (mkABS beta loss_f base_models
          (flat_map (fun vae => encoder_params vae) base_models)
          (flat_map (fun vae => decoder_params vae) base_models)))%world.

Definition default {A : Type} (d : A) (o : option A) : A :=
  match o with
  | Some a => a
  | None => d
  end.

(** [ABS(n_classes, beta, color=False, logit_scale=1., base_model_f=VAE, loss_f='vae')]:
    an argument left out takes its default. *)
Definition ABS_new (n_classes : nat) (beta : R) (color : option bool)
    (logit_scale : option R) (base_model_f : option Callable) (loss_f : option string)
  : M ABS :=
  ABS_init n_classes beta (default false color) (default 1%R logit_scale)
    (default VAE_class base_model_f) (default "vae"%string loss_f).

(** [ABS.forward] *)
Definition ABS_forward (self : ABS) (x : Tensor)
  : M (Tensor * Tensor * Tensor * Tensor) :=
  (outputs <- mapM (fun base_model => VAE_forward base_model x) (base_models self) ;;
   '(recs, mus, logvars) <- lift (unzip3 outputs) ;;
   recs <- lift (stack recs) ;;
   mus <- lift (stack mus) ;;
   logvars <- lift (stack logvars) ;;
   losses <- lift (rmapM (fun '(recs, mus, logvars) =>
                 samplewise_loss_function x (detach recs) (detach mus) (detach logvars)
                   (beta self) (loss_f self)) outputs) ;;
   losses <- lift (stack losses) ;;
   _ <- lift (py_assert (dim losses =? 2)) ;;
   logits <- lift (t <- transpose01 losses ;; Ok (neg t))%res ;;
   (* logits = logits * self.logit_scale *)
   ret (logits, recs, mus, logvars))%world.

(** ** [get_base_model] *)

(** The model class of the [one_lip_ae] package and its constructor. *)
Variable OneLipModel : Type.
Variable get_one_lip_model : Args -> M OneLipModel.

Inductive BaseModel : Type :=
| IsOneLip (m : OneLipModel)
| IsVAE (v : VAE).

Definition get_base_model (args : Args) : M BaseModel :=
  if String.eqb (base_model args) "one_lip_ae"
  then (m <- get_one_lip_model args ;; ret (IsOneLip m))%world
  else if String.eqb (base_model args) "vae"
  then (v <- VAE_init (n_latents_per_class args) false ;; ret (IsVAE v))%world
  else raise (NotImplementedError
                ("model " ++ base_model args ++ " is not implemented try OneLipAE or VAE")).

(** * The vocabulary of the properties *)


(** What [VAE.forward] computes when no noise is drawn: the latent is [mu]. *)
Definition VAE_forward_eval (self : VAE) (x : Tensor) : result (Tensor * Tensor * Tensor) :=
  ('(mu, logvar) <- EncoderModule_forward (encoder self) x ;;
   rec <- DecoderModule_forward (decoder self) mu ;;
   Ok (rec, mu, logvar))%res.

(** [needle] occurs in [msg]. *)
Definition names (needle msg : string) : Prop :=
  exists pre post : string, msg = (pre ++ needle ++ post)%string.

(** [m] returns a value, whatever the world it starts from. *)
Definition returns {A : Type} (m : M A) : Prop :=
  forall w : World, exists (a : A) (w' : World), m w = (Ok a, w').

(** The first statement of [ABS.forward]: every base model on the same batch. *)
Definition run_base_models (self : ABS) (x : Tensor) : M (list (Tensor * Tensor * Tensor)) :=
  mapM (fun base_model => VAE_forward base_model x) (base_models self).

(** The loss of one class: the body of the comprehension over [outputs]. *)
Definition class_loss (self : ABS) (x : Tensor) (o : Tensor * Tensor * Tensor)
  : result Tensor :=
  let '(recs, mus, logvars) := o in
  samplewise_loss_function x (detach recs) (detach mus) (detach logvars)
    (beta self) (loss_f self).

(** The statements after the first, which touch neither generator nor identities. *)
Definition score (self : ABS) (x : Tensor) (outputs : list (Tensor * Tensor * Tensor))
  : result (Tensor * Tensor * Tensor * Tensor) :=
  ('(recs, mus, logvars) <- unzip3 outputs ;;
   recs <- stack recs ;;
   mus <- stack mus ;;
   logvars <- stack logvars ;;
   losses <- rmapM (class_loss self x) outputs ;;
   losses <- stack losses ;;
   _ <- py_assert (dim losses =? 2) ;;
   t <- transpose01 losses ;;
   Ok (neg t, recs, mus, logvars))%res.

(** The statements from the stacking of the losses on. *)
Definition finish (losses : list Tensor) (recs mus logvars : Tensor)
  : result (Tensor * Tensor * Tensor * Tensor) :=
  (stacked <- stack losses ;;
   _ <- py_assert (dim stacked =? 2) ;;
   t <- transpose01 stacked ;;
   Ok (neg t, recs, mus, logvars))%res.

(** The generator hands out as many draws as it is asked for. *)
Definition randn_sized : Prop := forall (n : nat) (g : RNG), length (fst (randn n g)) = n.

Definition ids (l : list Param) : list nat := map pid l.

(** Running [m] returns an object whose parameters, in the order of
    [members], are the next [k] fresh identities. *)
Definition fresh_block {A : Type} (m : M A) (members : A -> list Param) (k : nat) : Prop :=
  forall w : World,
    exists (a : A) (w' : World),
      m w = (Ok a, w')
      /\ ids (members a) = seq (next_id w) k
      /\ next_id w' = k + next_id w.

Definition enc_count (color : bool) : nat := if color then 20 else 16.
Definition dec_count (color : bool) : nat := if color then 18 else 14.

(** The encoder identities and the decoder identities of each model of [ms],
    model [i] owning the block that starts at [base + i * (a + b)]. *)
Fixpoint blocks (base a b : nat) (ms : list VAE) : Prop :=
  match ms with
  | [] => True
  | v :: ms' =>
      ids (EncoderModule_members (encoder v)) = seq base a
      /\ ids (DecoderModule_members (decoder v)) = seq (base + a) b
      /\ blocks (base + (a + b)) a b ms'
  end.

(** * Properties *)

(** ** The range of the decoders *)




(** ** Evaluation mode *)

Lemma reparameterize_eval :
  forall (self : VAE) (mu logvar : Tensor) (w : World),
    training self = false -> reparameterize self mu logvar w = (Ok mu, w).
Proof.
  intros self mu logvar w H. unfold reparameterize. rewrite H. reflexivity.
Qed.

Lemma VAE_forward_eval_run :
  forall (self : VAE) (x : Tensor) (w : World),
    training self = false -> VAE_forward self x w = (VAE_forward_eval self x, w).
Proof.
  intros self x w H. unfold VAE_forward, VAE_forward_eval, bind, lift.
  destruct (EncoderModule_forward (encoder self) x) as [[mu logvar]|e]; simpl; [|reflexivity].
  rewrite (reparameterize_eval self mu logvar w H).
  destruct (DecoderModule_forward (decoder self) mu) as [rec|e]; reflexivity.
Qed.

(** C3: in evaluation mode [VAE.forward] draws nothing from the random
    generator: [reparameterize] returns [mu], the result is the same from
    every state of the generator, the state is left as it was, and a second
    call on the same module and input returns what the first returned. *)
Theorem VAE_forward_eval_deterministic :
  forall (self : VAE) (x : Tensor),
    training self = false ->
    (forall (mu logvar : Tensor) (w : World), reparameterize self mu logvar w = (Ok mu, w))
    /\ (forall w1 w2 : World, fst (VAE_forward self x w1) = fst (VAE_forward self x w2))
    /\ (forall w : World, snd (VAE_forward self x w) = w)
    /\ (forall w : World,
          fst (VAE_forward self x (snd (VAE_forward self x w))) = fst (VAE_forward self x w)).
Proof.
  intros self x H. repeat split.
  - intros mu logvar w. now apply reparameterize_eval.
  - intros w1 w2. now rewrite !VAE_forward_eval_run.
  - intro w. now rewrite VAE_forward_eval_run.
  - intro w. now rewrite !VAE_forward_eval_run.
Qed.

(** ** The logit scale *)

(** C9: the [logit_scale] argument reaches nothing: two constructions that
    differ only in it build the same object from the same world, and the
    forward pass of the object built returns the same logits, reconstructions,
    means and log-variances. *)
Theorem logit_scale_inert :
  forall (n_classes : nat) (beta : R) (color : option bool) (s1 s2 : option R)
         (f : option Callable) (lf : option string) (w : World) (x : Tensor),
    ABS_new n_classes beta color s1 f lf w = ABS_new n_classes beta color s2 f lf w
    /\ bind (ABS_new n_classes beta color s1 f lf) (fun self => ABS_forward self x) w
       = bind (ABS_new n_classes beta color s2 f lf) (fun self => ABS_forward self x) w.
Proof.
  intros. split.
  - unfold ABS_new, ABS_init. reflexivity.
  - unfold bind, ABS_new, ABS_init. reflexivity.
Qed.

(** ** Exceptions in a comprehension *)

Lemma mapM_first_raise :
  forall (A B : Type) (f : A -> M B) (a : A) (l : list A) (e : PyError) (w w' : World),
    f a w = (Raise e, w') -> mapM f (a :: l) w = (Raise e, w').
Proof.
  intros A B f a l e w w' H. simpl. unfold bind. rewrite H. reflexivity.
Qed.



(** ** The kinds of base model *)

Lemma string_append_assoc :
  forall a b c : string, ((a ++ b) ++ c)%string = (a ++ b ++ c)%string.
Proof.
  induction a as [|ch a IH]; intros b c; simpl; [reflexivity|]. now rewrite IH.
Qed.

Lemma not_implemented_message_names :
  forall kind : string,
    names "OneLipAE" ("model " ++ kind ++ " is not implemented try OneLipAE or VAE")
    /\ names "VAE" ("model " ++ kind ++ " is not implemented try OneLipAE or VAE").
Proof.
  intro kind. split.
  - exists ("model " ++ kind ++ " is not implemented try ")%string, " or VAE"%string.
    rewrite !string_append_assoc. reflexivity.
  - exists ("model " ++ kind ++ " is not implemented try OneLipAE or ")%string, ""%string.
    rewrite !string_append_assoc. reflexivity.
Qed.

Lemma returns_ret : forall (A : Type) (a : A), returns (ret a).
Proof. intros A a w. now exists a, w. Qed.

Lemma returns_bind :
  forall (A B : Type) (m : M A) (k : A -> M B),
    returns m -> (forall a, returns (k a)) -> returns (bind m k).
Proof.
  intros A B m k Hm Hk w. unfold bind.
  destruct (Hm w) as [a [w1 E]]. rewrite E. apply Hk.
Qed.

Lemma returns_mapM :
  forall (A B : Type) (f : A -> M B) (l : list A),
    (forall a, In a l -> returns (f a)) -> returns (mapM f l).
Proof.
  intros A B f l. induction l as [|a l IH]; intro H; simpl.
  - apply returns_ret.
  - apply returns_bind; [apply H; now left|]. intro b.
    apply returns_bind; [apply IH; intros; apply H; now right|]. intro bs.
    apply returns_ret.
Qed.

Lemma returns_new_parameter : forall t : Tensor, returns (new_parameter t).
Proof. intros t w. unfold new_parameter. eauto. Qed.

Lemma returns_draw_init : forall s : list nat, returns (draw_init s).
Proof. intros s w. unfold draw_init. eauto. Qed.

Create HintDb returns_db.
#[local] Hint Resolve returns_ret returns_new_parameter returns_draw_init : returns_db.

Ltac returns_step :=
  repeat match goal with
         | |- returns (bind _ _) => apply returns_bind; [|intro]
         end;
  auto with returns_db.

Lemma returns_Conv2d_new : forall cin cout k s, returns (Conv2d_new cin cout k s).
Proof. intros. unfold Conv2d_new. returns_step. Qed.

Lemma returns_ConvTranspose2d_new :
  forall cin cout k s, returns (ConvTranspose2d_new cin cout k s).
Proof. intros. unfold ConvTranspose2d_new. returns_step. Qed.

Lemma returns_BatchNorm2d_new : forall n, returns (BatchNorm2d_new n).
Proof. intros. unfold BatchNorm2d_new. returns_step. Qed.

#[local] Hint Resolve returns_Conv2d_new returns_ConvTranspose2d_new
  returns_BatchNorm2d_new : returns_db.

Lemma returns_conv : forall cin cout k s, returns (conv cin cout k s).
Proof. intros. unfold conv. returns_step. Qed.

Lemma returns_convT : forall cin cout k s, returns (convT cin cout k s).
Proof. intros. unfold convT. returns_step. Qed.

Lemma returns_bnorm : forall n, returns (bnorm n).
Proof. intros. unfold bnorm. returns_step. Qed.

#[local] Hint Resolve returns_conv returns_convT returns_bnorm : returns_db.

Lemma returns_Sequential_new :
  forall ls : list (M Layer), Forall returns ls -> returns (Sequential_new ls).
Proof.
  intros ls H. unfold Sequential_new. apply returns_mapM.
  intros a Ha. rewrite Forall_forall in H. now apply H.
Qed.

Ltac returns_layers :=
  apply returns_Sequential_new; repeat constructor; auto with returns_db.

Lemma returns_Encoder_init : forall n, returns (Encoder_init n).
Proof.
  intro n. unfold Encoder_init.
  apply returns_bind; [returns_layers|intro]. returns_step.
Qed.

Lemma returns_Decoder_init : forall n, returns (Decoder_init n).
Proof.
  intro n. unfold Decoder_init.
  apply returns_bind; [returns_layers|intro]. returns_step.
Qed.

Lemma returns_ColorEncoder_init : forall n, returns (ColorEncoder_init n).
Proof.
  intro n. unfold ColorEncoder_init.
  apply returns_bind; [returns_layers|intro]. returns_step.
Qed.

Lemma returns_ColorDecoder_init : forall n, returns (ColorDecoder_init n).
Proof.
  intro n. unfold ColorDecoder_init.
  apply returns_bind; [returns_layers|intro]. returns_step.
Qed.

#[local] Hint Resolve returns_Encoder_init returns_Decoder_init
  returns_ColorEncoder_init returns_ColorDecoder_init : returns_db.

Lemma returns_VAE_init : forall n color, returns (VAE_init n color).
Proof. intros n color. unfold VAE_init. destruct color; returns_step. Qed.

(** ** The default factory *)

(** C10: with [base_model_f] left at its default, the class [VAE], the
    constructor of [ABS] calls [VAE()] with no argument; for one class or more
    the first call raises a [TypeError] for the missing [n_latents] and nothing
    is built, whereas a factory of the caller that returns when called with no
    argument lets the constructor return. *)
Theorem ABS_default_factory_fails :
  forall (n_classes : nat) (beta : R) (color : option bool) (ls : option R)
         (lf : option string) (w : World),
    1 <= n_classes ->
    ABS_new n_classes beta color ls None lf w
    = (Raise (TypeError "__init__() missing 1 required positional argument: 'n_latents'"), w)
    /\ forall f : Callable,
         returns (f []) ->
         exists (self : ABS) (w' : World),
           ABS_new n_classes beta color ls (Some f) lf w = (Ok self, w').
Proof.
  intros n_classes beta color ls lf w Hn. split.
  - destruct n_classes as [|k]; [lia|].
    unfold ABS_new, ABS_init, bind, default. cbn [seq].
    erewrite mapM_first_raise by reflexivity. reflexivity.
  - intros f Hf. unfold ABS_new, ABS_init, bind, default.
    destruct (@returns_mapM nat VAE (fun _ => f []) (seq 0 n_classes) (fun a _ => Hf) w)
      as [ms [w' E]].
    rewrite E. eexists. eexists. reflexivity.
Qed.

(** C5: a kind other than ['one_lip_ae'] and ['vae'] makes [get_base_model]
    raise [NotImplementedError] with a message that names [OneLipAE] and
    [VAE]; the kind ['vae'] returns a [VAE]; the kind ['one_lip_ae'] hands
    over to [get_one_lip_model], so an error there is that constructor's. *)
Theorem get_base_model_kinds :
  forall (args : Args) (w : World),
    (base_model args <> "one_lip_ae"%string -> base_model args <> "vae"%string ->
       get_base_model args w
       = (Raise (NotImplementedError
                   ("model " ++ base_model args ++ " is not implemented try OneLipAE or VAE")), w)
       /\ names "OneLipAE"
            ("model " ++ base_model args ++ " is not implemented try OneLipAE or VAE")
       /\ names "VAE"
            ("model " ++ base_model args ++ " is not implemented try OneLipAE or VAE"))
    /\ (base_model args = "vae"%string ->
        exists (v : VAE) (w' : World), get_base_model args w = (Ok (IsVAE v), w'))
    /\ (base_model args = "one_lip_ae"%string ->
        get_base_model args w
        = bind (get_one_lip_model args) (fun m => ret (IsOneLip m)) w
        /\ forall e : PyError,
             fst (get_base_model args w) = Raise e ->
             fst (get_one_lip_model args w) = Raise e).
Proof.
  intros args w. unfold get_base_model. repeat split.
  - apply String.eqb_neq in H, H0. rewrite H, H0. reflexivity.
  - apply not_implemented_message_names.
  - apply not_implemented_message_names.
  - intro H. rewrite H.
    change ("vae" =? "one_lip_ae")%string with false.
    change ("vae" =? "vae")%string with true. cbv iota.
    destruct (returns_VAE_init (n_latents_per_class args) false w) as [v [w' E]].
    exists v, w'. unfold bind. rewrite E. reflexivity.
  - rewrite H. reflexivity.
  - rewrite H. change ("one_lip_ae" =? "one_lip_ae")%string with true. cbv iota.
    unfold bind.
    destruct (get_one_lip_model args w) as [[m|e'] w']; simpl; intros e He;
      [discriminate|congruence].
Qed.

(** ** Stacking, transposing and indexing *)

Lemma shape_eqb_eq : forall s1 s2 : list nat, shape_eqb s1 s2 = true <-> s1 = s2.
Proof.
  intros s1 s2. unfold shape_eqb.
  destruct (list_eq_dec Nat.eq_dec s1 s2); split; intro H; congruence.
Qed.

Lemma stack_inv :
  forall (ts : list Tensor) (t : Tensor),
    stack ts = Ok t ->
    exists s : list nat,
      ts <> [] /\ Forall (fun u => shape u = s) ts
      /\ shape t = length ts :: s /\ data t = flat_map data ts.
Proof.
  intros ts t H. unfold stack in H. destruct ts as [|t0 ts']; [discriminate|].
  destruct (forallb _ _) eqn:E; [|discriminate].
  injection H as <-. exists (shape t0). repeat split; try discriminate.
  rewrite forallb_forall in E. apply Forall_forall. intros u Hu.
  now apply shape_eqb_eq, E.
Qed.

Lemma stack_uniform :
  forall (ts : list Tensor) (s : list nat),
    ts <> [] -> Forall (fun u => shape u = s) ts ->
    stack ts = Ok (mkTensor (length ts :: s) (flat_map data ts)).
Proof.
  intros ts s Hne Hs. unfold stack. destruct ts as [|t0 ts']; [congruence|].
  assert (H0 : shape t0 = s) by (inversion Hs; assumption).
  replace (forallb _ _) with true; [now rewrite H0|].
  symmetry. apply forallb_forall. intros u Hu. apply shape_eqb_eq.
  rewrite Forall_forall in Hs. rewrite H0. now apply Hs.
Qed.

Lemma nth_error_flat_map_uniform :
  forall (A : Type) (g : A -> list R) (c : nat) (l : list A) (k : nat) (a : A) (r : nat),
    Forall (fun x => length (g x) = c) l ->
    nth_error l k = Some a -> r < c ->
    nth_error (flat_map g l) (k * c + r) = nth_error (g a) r.
Proof.
  intros A g c l. induction l as [|x l IH]; intros k a r Hl Hk Hr.
  - destruct k; discriminate.
  - inversion Hl as [|? ? Hx Hl']; subst. destruct k as [|k]; simpl in *.
    + injection Hk as ->. apply nth_error_app1. lia.
    + rewrite nth_error_app2 by lia.
      replace (length (g x) + k * length (g x) + r - length (g x))
        with (k * length (g x) + r) by lia.
      now apply IH.
Qed.

Lemma length_flat_map_uniform :
  forall (A : Type) (g : A -> list R) (c : nat) (l : list A),
    Forall (fun x => length (g x) = c) l -> length (flat_map g l) = length l * c.
Proof.
  intros A g c l H. induction H as [|x l Hx Hl IH]; simpl; [reflexivity|].
  rewrite length_app, IH, Hx. reflexivity.
Qed.

Lemma nth_error_slice :
  forall (off len r : nat) (l : list R),
    r < len -> nth_error (slice off len l) r = nth_error l (off + r).
Proof.
  intros off len r l H. unfold slice.
  rewrite nth_error_firstn, nth_error_skipn.
  apply Nat.ltb_lt in H. now rewrite H.
Qed.

Lemma length_slice :
  forall (off len : nat) (l : list R),
    off + len <= length l -> length (slice off len l) = len.
Proof.
  intros off len l H. unfold slice. rewrite length_firstn, length_skipn. lia.
Qed.

(** The entries of a rank-2 tensor in row-major order. *)
Lemma item_rank2 :
  forall (t : Tensor) (d0 d1 i j : nat),
    shape t = [d0; d1] -> i < d0 -> j < d1 ->
    item t [i; j] = nth_error (data t) (i * d1 + j).
Proof.
  intros t d0 d1 i j Hs Hi Hj. unfold item. rewrite Hs. simpl.
  apply Nat.ltb_lt in Hi, Hj. rewrite Hi, Hj. simpl.
  f_equal. lia.
Qed.

Lemma item_rank1 :
  forall (t : Tensor) (d i : nat),
    shape t = [d] -> i < d -> item t [i] = nth_error (data t) i.
Proof.
  intros t d i Hs Hi. unfold item. rewrite Hs. simpl.
  apply Nat.ltb_lt in Hi. rewrite Hi. simpl. f_equal. lia.
Qed.

(** Entry [(j, i)] of the transpose of a rank-2 tensor is its entry [(i, j)]. *)
Lemma transpose01_rank2 :
  forall (t u : Tensor) (d0 d1 i j : nat),
    shape t = [d0; d1] -> wf t -> transpose01 t = Ok u ->
    i < d0 -> j < d1 ->
    shape u = [d1; d0] /\ item u [j; i] = item t [i; j].
Proof.
  intros t u d0 d1 i j Hs Hwf Ht Hi Hj.
  unfold transpose01 in Ht. rewrite Hs in Ht. injection Ht as <-.
  split; [reflexivity|].
  rewrite (@item_rank2 _ d1 d0 j i) by (simpl; auto).
  rewrite (@item_rank2 t d0 d1 i j) by auto.
  simpl data.
  assert (Hlen : length (data t) = d0 * d1).
  { unfold wf, numel in Hwf. rewrite Hs in Hwf. simpl in Hwf. lia. }
  assert (Hin : forall j' i', j' < d1 -> i' < d0 ->
            length (slice ((i' * d1 + j') * 1) 1 (data t)) = 1).
  { intros j' i' Hj' Hi'. apply length_slice. nia. }
  assert (Hrow : forall j', j' < d1 ->
            length (flat_map (fun i' => slice ((i' * d1 + j') * 1) 1 (data t)) (seq 0 d0)) = d0).
  { intros j' Hj'. rewrite (@length_flat_map_uniform _ _ 1).
    - rewrite length_seq. lia.
    - apply Forall_forall. intros i' Hi'. apply in_seq in Hi'. apply Hin; lia. }
  rewrite (@nth_error_flat_map_uniform _ _ d0 (seq 0 d1) j j i).
  - replace i with (i * 1 + 0) at 1 by lia.
    rewrite (@nth_error_flat_map_uniform _ _ 1 (seq 0 d0) i i 0).
    + rewrite nth_error_slice by lia. f_equal. lia.
    + apply Forall_forall. intros i' Hi'. apply in_seq in Hi'. apply Hin; lia.
    + rewrite nth_error_seq. apply Nat.ltb_lt in Hi. now rewrite Hi.
    + lia.
  - apply Forall_forall. intros j' Hj'. apply in_seq in Hj'. apply Hrow; lia.
  - rewrite nth_error_seq. apply Nat.ltb_lt in Hj. now rewrite Hj.
  - exact Hi.
Qed.

(** Entry [(k, b)] of a stack of rank-1 tensors is entry [b] of the [k]-th. *)
Lemma stack_rank1_item :
  forall (ts : list Tensor) (st tk : Tensor) (B k b : nat),
    stack ts = Ok st -> Forall (fun u => shape u = [B]) ts -> Forall wf ts ->
    nth_error ts k = Some tk -> b < B ->
    shape st = [length ts; B] /\ wf st /\ item st [k; b] = item tk [b].
Proof.
  intros ts st tk B k b Hst Hsh Hwf Hk Hb.
  destruct (@stack_inv _ _ Hst) as [s [Hne [Hs [Hshape Hdata]]]].
  assert (s = [B]) as ->.
  { destruct ts as [|t0 ts']; [congruence|].
    inversion Hs; inversion Hsh; subst. congruence. }
  assert (Hlen : Forall (fun u => length (data u) = B) ts).
  { rewrite Forall_forall in *. intros u Hu.
    specialize (Hwf u Hu). specialize (Hsh u Hu).
    unfold wf, numel in Hwf. rewrite Hsh in Hwf. simpl in Hwf. lia. }
  assert (Hkl : k < length ts) by (apply nth_error_Some; congruence).
  repeat split.
  - exact Hshape.
  - unfold wf, numel. rewrite Hshape, Hdata. simpl.
    rewrite (@length_flat_map_uniform _ _ B) by exact Hlen. lia.
  - rewrite (@item_rank2 st (length ts) B k b) by auto.
    rewrite (@item_rank1 tk B b); auto.
    + rewrite Hdata. now apply nth_error_flat_map_uniform.
    + rewrite Forall_forall in Hsh. apply Hsh. eapply nth_error_In; eauto.
Qed.

Lemma item_neg :
  forall (t : Tensor) (idx : list nat),
    item (neg t) idx = option_map Ropp (item t idx).
Proof.
  intros t idx. unfold item, neg, tmap. simpl.
  destruct (flat_index (shape t) idx); [|reflexivity]. apply nth_error_map.
Qed.

(** ** The forward pass of the ensemble, in stages *)

Lemma ABS_forward_staged :
  forall (self : ABS) (x : Tensor) (w : World),
    ABS_forward self x w
    = (rbind (fst (run_base_models self x w)) (score self x),
       snd (run_base_models self x w)).
Proof.
  intros self x w. unfold ABS_forward, run_base_models, bind, lift.
  destruct (mapM _ (base_models self) w) as [[outputs|e] w']; simpl; [|reflexivity].
  unfold score. destruct (unzip3 outputs) as [[[recs mus] logvars]|e]; simpl; [|reflexivity].
  destruct (stack recs) as [recs'|e]; simpl; [|reflexivity].
  destruct (stack mus) as [mus'|e]; simpl; [|reflexivity].
  destruct (stack logvars) as [logvars'|e]; simpl; [|reflexivity].
  change (fun '(recs0, mus0, logvars0) =>
            samplewise_loss_function x (detach recs0) (detach mus0) (detach logvars0)
              (beta self) (loss_f self)) with (class_loss self x).
  destruct (rmapM (class_loss self x) outputs) as [losses|e]; simpl; [|reflexivity].
  destruct (stack losses) as [losses'|e]; simpl; [|reflexivity].
  destruct (py_assert (dim losses' =? 2)) as [[]|e]; simpl; [|reflexivity].
  destruct (transpose01 losses') as [t|e]; reflexivity.
Qed.

Lemma mapM_length :
  forall (A B : Type) (f : A -> M B) (l : list A) (bs : list B) (w w' : World),
    mapM f l w = (Ok bs, w') -> length bs = length l.
Proof.
  intros A B f l. induction l as [|a l IH]; intros bs w w' H; simpl in H.
  - injection H as <- _. reflexivity.
  - unfold bind in H. destruct (f a w) as [[b|e] w1]; [|discriminate].
    destruct (mapM f l w1) as [[bs'|e] w2] eqn:E; [|discriminate].
    injection H as <- _. simpl. f_equal. eapply IH. exact E.
Qed.

Lemma rmapM_Forall2 :
  forall (A B : Type) (f : A -> result B) (l : list A) (bs : list B),
    rmapM f l = Ok bs -> Forall2 (fun a b => f a = Ok b) l bs.
Proof.
  intros A B f l. induction l as [|a l IH]; intros bs H; simpl in H.
  - injection H as <-. constructor.
  - destruct (f a) as [b|e] eqn:Ea; simpl in H; [|discriminate].
    destruct (rmapM f l) as [bs'|e] eqn:E; simpl in H; [|discriminate].
    injection H as <-. constructor; auto.
Qed.

Lemma Forall2_rmapM :
  forall (A B : Type) (f : A -> result B) (l : list A) (bs : list B),
    Forall2 (fun a b => f a = Ok b) l bs -> rmapM f l = Ok bs.
Proof.
  intros A B f l bs H. induction H as [|a b l bs Hab H IH]; simpl; [reflexivity|].
  rewrite Hab, IH. reflexivity.
Qed.

Lemma Forall2_nth_error_l :
  forall (A B : Type) (P : A -> B -> Prop) (l : list A) (bs : list B) (k : nat) (a : A),
    Forall2 P l bs -> nth_error l k = Some a ->
    exists b : B, nth_error bs k = Some b /\ P a b.
Proof.
  intros A B P l bs k a H. revert k. induction H as [|x y l bs Hxy H IH]; intros k Hk.
  - destruct k; discriminate.
  - destruct k as [|k]; simpl in *.
    + injection Hk as <-. eauto.
    + now apply IH.
Qed.

Lemma unzip3_inv :
  forall outputs recs mus logvars,
    unzip3 outputs = Ok (recs, mus, logvars) ->
    outputs <> []
    /\ recs = map (fun o => fst (fst o)) outputs
    /\ mus = map (fun o => snd (fst o)) outputs
    /\ logvars = map (fun o => snd o) outputs.
Proof.
  intros outputs recs mus logvars H. unfold unzip3 in H.
  destruct outputs; [discriminate|]. injection H as <- <- <-.
  repeat split; discriminate.
Qed.

(** What a normal return of the scoring statements tells. *)
Lemma score_inv :
  forall (self : ABS) (x : Tensor) outputs logits recs mus logvars,
    score self x outputs = Ok (logits, recs, mus, logvars) ->
    exists (losses : list Tensor) (stacked t : Tensor),
      outputs <> []
      /\ stack (map (fun o => fst (fst o)) outputs) = Ok recs
      /\ stack (map (fun o => snd (fst o)) outputs) = Ok mus
      /\ stack (map (fun o => snd o) outputs) = Ok logvars
      /\ rmapM (class_loss self x) outputs = Ok losses
      /\ stack losses = Ok stacked
      /\ dim stacked = 2
      /\ transpose01 stacked = Ok t
      /\ logits = neg t.
Proof.
  intros self x outputs logits recs mus logvars H. unfold score in H.
  destruct (unzip3 outputs) as [[[rs ms] ls]|e] eqn:Eu; simpl in H; [|discriminate].
  destruct (@unzip3_inv _ _ _ _ Eu) as [Hne [-> [-> ->]]].
  destruct (stack (map (fun o => fst (fst o)) outputs)) as [recs'|e]; simpl in H; [|discriminate].
  destruct (stack (map (fun o => snd (fst o)) outputs)) as [mus'|e]; simpl in H; [|discriminate].
  destruct (stack (map (fun o => snd o) outputs)) as [logvars'|e]; simpl in H; [|discriminate].
  destruct (rmapM (class_loss self x) outputs) as [losses|e]; simpl in H; [|discriminate].
  destruct (stack losses) as [stacked|e] eqn:Es; simpl in H; [|discriminate].
  destruct (dim stacked =? 2) eqn:Ed; simpl in H; [|discriminate].
  destruct (transpose01 stacked) as [t|e] eqn:Et; simpl in H; [|discriminate].
  injection H as <- <- <- <-.
  exists losses, stacked, t. apply Nat.eqb_eq in Ed. repeat split; auto.
Qed.

Lemma ABS_forward_inv :
  forall (self : ABS) (x : Tensor) (w w' : World) logits recs mus logvars,
    ABS_forward self x w = (Ok (logits, recs, mus, logvars), w') ->
    exists outputs : list (Tensor * Tensor * Tensor),
      run_base_models self x w = (Ok outputs, w')
      /\ length outputs = length (base_models self)
      /\ score self x outputs = Ok (logits, recs, mus, logvars).
Proof.
  intros self x w w' logits recs mus logvars H.
  rewrite ABS_forward_staged in H.
  destruct (run_base_models self x w) as [[outputs|e] w1] eqn:E; simpl in H; [|discriminate].
  injection H as H <-. exists outputs. repeat split; auto.
  unfold run_base_models in E. eapply mapM_length; eauto.
Qed.

(** ** Shapes of the results *)

Lemma ABS_init_n_classes :
  forall (n_classes : nat) (beta : R) (color : bool) (ls : R) (f : Callable) (lf : string)
         (w w' : World) (self : ABS),
    ABS_init n_classes beta color ls f lf w = (Ok self, w') ->
    length (base_models self) = n_classes.
Proof.
  intros n_classes beta color ls f lf w w' self H. unfold ABS_init, bind in H.
  destruct (mapM _ (seq 0 n_classes) w) as [[ms|e] w1] eqn:E; [|discriminate].
  injection H as <- _. simpl. apply mapM_length in E. now rewrite length_seq in E.
Qed.

Lemma Forall2_length_eq :
  forall (A B : Type) (P : A -> B -> Prop) (l : list A) (bs : list B),
    Forall2 P l bs -> length l = length bs.
Proof. intros A B P l bs H. induction H; simpl; congruence. Qed.

Lemma leading_stack :
  forall (ts : list Tensor) (t : Tensor),
    stack ts = Ok t -> leading t = Some (length ts).
Proof.
  intros ts t H. destruct (@stack_inv _ _ H) as [s [_ [_ [Hs _]]]].
  unfold leading. now rewrite Hs.
Qed.

(** The stacked losses of a normal return, when every class loss has shape [(B)]. *)
Lemma stacked_losses_shape :
  forall (self : ABS) (x : Tensor) outputs (losses : list Tensor) (stacked : Tensor) (B : nat),
    outputs <> [] ->
    rmapM (class_loss self x) outputs = Ok losses ->
    (forall o t, class_loss self x o = Ok t -> shape t = [B]) ->
    stack losses = Ok stacked ->
    shape stacked = [length outputs; B].
Proof.
  intros self x outputs losses stacked B Hne Hl HB Hst.
  apply (@rmapM_Forall2 _ _ _ _ _) in Hl.
  destruct (@stack_inv _ _ Hst) as [s [Hne' [Hs [Hshape _]]]].
  rewrite Hshape, <- (@Forall2_length_eq _ _ _ _ _ Hl).
  destruct Hl as [|o t os ts Hot Hl]; [congruence|].
  inversion Hs; subst. now rewrite (HB o t Hot).
Qed.

(** C1: an ensemble built with [n_classes = K] holds [K] base models, and
    whenever its forward pass returns on a batch of size [B], the losses of the
    outputs of its base models having shape [(B)], the logits have shape
    [(B, K)] and the stacked reconstructions, means and log-variances have
    leading dimension [K]. *)
Theorem ABS_forward_shapes :
  forall K B : nat,
    (forall (beta : R) (color : option bool) (ls : option R) (f : option Callable)
            (lf : option string) (w w' : World) (self : ABS),
        ABS_new K beta color ls f lf w = (Ok self, w') ->
        length (base_models self) = K)
    /\ (forall (self : ABS) (x : Tensor) (w w' : World)
               (outputs : list (Tensor * Tensor * Tensor)) (losses : list Tensor)
               (logits recs mus logvars : Tensor),
        length (base_models self) = K ->
        leading x = Some B ->
        run_base_models self x w = (Ok outputs, w') ->
        rmapM (class_loss self x) outputs = Ok losses ->
        Forall (fun t => shape t = [B]) losses ->
        ABS_forward self x w = (Ok (logits, recs, mus, logvars), w') ->
        shape logits = [B; K]
        /\ leading recs = Some K /\ leading mus = Some K /\ leading logvars = Some K).
Proof.
  intros K B. split.
  - intros beta color ls f lf w w' self H. unfold ABS_new in H.
    eapply ABS_init_n_classes; eauto.
  - intros self x w w' outputs losses logits recs mus logvars HK Hx Hrun Hl HB H.
    destruct (@ABS_forward_inv _ _ _ _ _ _ _ _ H) as [outputs0 [Hrun0 [Hlen Hscore]]].
    rewrite Hrun in Hrun0. injection Hrun0 as <-.
    destruct (@score_inv _ _ _ _ _ _ _ Hscore)
      as [losses0 [stacked [t [Hne [Hr [Hm [Hv [Hl0 [Hst [_ [Ht ->]]]]]]]]]]].
    rewrite Hl in Hl0. injection Hl0 as <-.
    pose proof (@Forall2_length_eq _ _ _ _ _ (@rmapM_Forall2 _ _ _ _ _ Hl)) as Hll.
    assert (Hnl : losses <> []).
    { intros ->. destruct outputs; [congruence|discriminate Hll]. }
    rewrite (@stack_uniform losses [B] Hnl HB) in Hst. injection Hst as <-.
    rewrite <- Hll, Hlen, HK in Ht.
    repeat split.
    + unfold transpose01 in Ht. cbn [shape] in Ht. injection Ht as <-. reflexivity.
    + rewrite (@leading_stack _ _ Hr), length_map. congruence.
    + rewrite (@leading_stack _ _ Hm), length_map. congruence.
    + rewrite (@leading_stack _ _ Hv), length_map. congruence.
Qed.

(** ** The logits *)

Lemma mapM_nth_error :
  forall (A B : Type) (f : A -> M B) (l : list A) (bs : list B) (w w' : World)
         (k : nat) (a : A),
    mapM f l w = (Ok bs, w') -> nth_error l k = Some a ->
    exists (b : B) (wk wk' : World), nth_error bs k = Some b /\ f a wk = (Ok b, wk').
Proof.
  intros A B f l. induction l as [|x l IH]; intros bs w w' k a H Hk.
  - destruct k; discriminate.
  - simpl in H. unfold bind in H.
    destruct (f x w) as [[b|e] w1] eqn:Ex; [|discriminate].
    destruct (mapM f l w1) as [[bs'|e] w2] eqn:E; [|discriminate].
    injection H as <- _. destruct k as [|k]; simpl in *.
    + injection Hk as <-. eauto.
    + eapply IH; eauto.
Qed.

(** C2: when the forward pass returns, the logits are the stacked class
    losses, negated and transposed; entry by entry, [logits[b][k]] is minus
    entry [b] of the loss that [samplewise_loss_function] gives for the batch
    and the (reconstruction, mu, logvar) of the [k]-th base model, with the
    ensemble's [beta] and [loss_f]. *)
Theorem ABS_forward_logits :
  forall (self : ABS) (x : Tensor) (w w' : World) (logits recs mus logvars : Tensor),
    (forall o t, class_loss self x o = Ok t -> wf t) ->
    ABS_forward self x w = (Ok (logits, recs, mus, logvars), w') ->
    exists (outputs : list (Tensor * Tensor * Tensor)) (losses : list Tensor)
           (stacked t : Tensor) (B : nat),
      run_base_models self x w = (Ok outputs, w')
      /\ rmapM (class_loss self x) outputs = Ok losses
      /\ stack losses = Ok stacked
      /\ shape stacked = [length (base_models self); B]
      /\ transpose01 stacked = Ok t
      /\ logits = neg t
      /\ shape logits = [B; length (base_models self)]
      /\ forall k b : nat,
           k < length (base_models self) -> b < B ->
           exists (vae : VAE) (wk wk' : World) (rec mu logvar loss : Tensor) (v : R),
             nth_error (base_models self) k = Some vae
             /\ VAE_forward vae x wk = (Ok (rec, mu, logvar), wk')
             /\ nth_error outputs k = Some (rec, mu, logvar)
             /\ samplewise_loss_function x rec mu logvar (beta self) (loss_f self) = Ok loss
             /\ item loss [b] = Some v
             /\ item logits [b; k] = Some (- v)%R.
Proof.
  intros self x w w' logits recs mus logvars Hwf H.
  destruct (@ABS_forward_inv _ _ _ _ _ _ _ _ H) as [outputs [Hrun [Hlen Hscore]]].
  destruct (@score_inv _ _ _ _ _ _ _ Hscore)
    as [losses [stacked [t [Hne [_ [_ [_ [Hl [Hst [Hdim [Ht ->]]]]]]]]]]].
  pose proof (@rmapM_Forall2 _ _ _ _ _ Hl) as HF.
  destruct (@stack_inv _ _ Hst) as [s [Hne' [Hs [Hshape Hdata]]]].
  assert (exists B, s = [B]) as [B ->].
  { unfold dim in Hdim. rewrite Hshape in Hdim. simpl in Hdim.
    destruct s as [|B [|? ?]]; simpl in Hdim; try discriminate. now exists B. }
  assert (Hlen' : length losses = length (base_models self)).
  { rewrite <- (@Forall2_length_eq _ _ _ _ _ HF). exact Hlen. }
  rewrite Hlen' in Hshape.
  assert (Hwfl : Forall wf losses).
  { apply Forall_forall. intros u Hu.
    destruct (In_nth_error _ _ Hu) as [k Hk].
    assert (Hko : k < length outputs).
    { rewrite (@Forall2_length_eq _ _ _ _ _ HF). apply nth_error_Some. congruence. }
    destruct (nth_error outputs k) as [o|] eqn:Eo;
      [|apply nth_error_None in Eo; lia].
    destruct (@Forall2_nth_error_l _ _ _ _ _ _ _ HF Eo) as [u' [Hu' Hou]].
    rewrite Hk in Hu'. injection Hu' as <-. eapply Hwf; eauto. }
  exists outputs, losses, stacked, t, B.
  repeat split; auto.
  - unfold transpose01 in Ht. rewrite Hshape in Ht. injection Ht as <-. reflexivity.
  - intros k b Hk Hb.
    destruct (nth_error (base_models self) k) as [vae|] eqn:Ev;
      [|apply nth_error_None in Ev; lia].
    destruct (@mapM_nth_error _ _ _ _ _ _ _ _ _ Hrun Ev) as [[[rec mu] logvar] [wk [wk' [Ho Hf]]]].
    destruct (@Forall2_nth_error_l _ _ _ _ _ _ _ HF Ho) as [loss [Hloss Hcl]].
    destruct (@stack_rank1_item losses stacked loss B k b Hst Hs Hwfl Hloss Hb)
      as [_ [Hwfs Hitem]].
    destruct (@transpose01_rank2 stacked t (length (base_models self)) B k b
                Hshape Hwfs Ht Hk Hb) as [_ Htr].
    assert (Hsl : shape loss = [B]).
    { rewrite Forall_forall in Hs. apply Hs. eapply nth_error_In; eauto. }
    assert (Hdl : length (data loss) = B).
    { rewrite Forall_forall in Hwfl. specialize (Hwfl loss (nth_error_In _ _ Hloss)).
      unfold wf, numel in Hwfl. rewrite Hsl in Hwfl. simpl in Hwfl. lia. }
    destruct (nth_error (data loss) b) as [v|] eqn:Ed;
      [|apply nth_error_None in Ed; lia].
    exists vae, wk, wk', rec, mu, logvar, loss, v.
    repeat split; auto.
    + rewrite (@item_rank1 loss B b); auto.
    + rewrite item_neg, Htr, Hitem, (@item_rank1 loss B b), Ed; auto.
Qed.

(** ** The rank-2 assertion *)

Lemma score_after_losses :
  forall (self : ABS) (x : Tensor) outputs recs mus logvars losses,
    stack (map (fun o => fst (fst o)) outputs) = Ok recs ->
    stack (map (fun o => snd (fst o)) outputs) = Ok mus ->
    stack (map (fun o => snd o) outputs) = Ok logvars ->
    rmapM (class_loss self x) outputs = Ok losses ->
    outputs <> [] /\ length losses = length outputs
    /\ score self x outputs = finish losses recs mus logvars.
Proof.
  intros self x outputs recs mus logvars losses Hr Hm Hv Hl.
  assert (Hne : outputs <> []).
  { destruct (@stack_inv _ _ Hr) as [s [Hne _]]. intros ->. now apply Hne. }
  repeat split; [exact Hne| |].
  - symmetry. apply (@Forall2_length_eq _ _ _ _ _ (@rmapM_Forall2 _ _ _ _ _ Hl)).
  - unfold score, finish, unzip3. destruct outputs as [|o os]; [congruence|].
    cbn [rbind]. rewrite Hr. cbn [rbind]. rewrite Hm. cbn [rbind]. rewrite Hv.
    cbn [rbind]. rewrite Hl. reflexivity.
Qed.

Lemma finish_inv :
  forall losses recs mus logvars r,
    finish losses recs mus logvars = Ok r -> Forall (fun t => dim t = 1) losses.
Proof.
  intros losses recs mus logvars r H. unfold finish in H.
  destruct (stack losses) as [stacked|e] eqn:Es; simpl in H; [|discriminate].
  destruct (dim stacked =? 2) eqn:Ed; simpl in H; [|discriminate].
  apply Nat.eqb_eq in Ed.
  destruct (@stack_inv _ _ Es) as [s [_ [Hs [Hshape _]]]].
  unfold dim in Ed. rewrite Hshape in Ed. simpl in Ed.
  eapply Forall_impl; [|exact Hs]. intros t Ht. unfold dim. rewrite Ht. lia.
Qed.

(** C8: once the base models have run and their outputs are stacked, if the
    loss function gives every class a loss of shape [(B)] then the stacked
    losses have shape [(n_classes, B)], the assertion passes and the forward
    pass returns; if it gives every class a loss of one shape of another rank
    the assertion fails; and the forward pass never returns when the loss of
    some class has a rank other than 1. *)
Theorem rank2_assertion :
  forall (self : ABS) (x : Tensor) (w w' : World)
         (outputs : list (Tensor * Tensor * Tensor)) (recs mus logvars : Tensor)
         (losses : list Tensor),
    run_base_models self x w = (Ok outputs, w') ->
    stack (map (fun o => fst (fst o)) outputs) = Ok recs ->
    stack (map (fun o => snd (fst o)) outputs) = Ok mus ->
    stack (map (fun o => snd o) outputs) = Ok logvars ->
    rmapM (class_loss self x) outputs = Ok losses ->
    (forall B : nat,
        Forall (fun t => shape t = [B]) losses ->
        exists stacked logits : Tensor,
          stack losses = Ok stacked
          /\ shape stacked = [length (base_models self); B]
          /\ dim stacked = 2
          /\ py_assert (dim stacked =? 2) = Ok tt
          /\ ABS_forward self x w = (Ok (logits, recs, mus, logvars), w'))
    /\ (forall s : list nat,
        length s <> 1 ->
        Forall (fun t => shape t = s) losses ->
        ABS_forward self x w = (Raise AssertionError, w'))
    /\ (forall r, fst (ABS_forward self x w) = Ok r -> Forall (fun t => dim t = 1) losses).
Proof.
  intros self x w w' outputs recs mus logvars losses Hrun Hr Hm Hv Hl.
  destruct (@score_after_losses self x outputs recs mus logvars losses Hr Hm Hv Hl)
    as [Hne [Hlen Hscore]].
  assert (HK : length outputs = length (base_models self)).
  { unfold run_base_models in Hrun. eapply mapM_length; eauto. }
  assert (Hfwd : ABS_forward self x w = (finish losses recs mus logvars, w')).
  { rewrite ABS_forward_staged, Hrun. simpl. now rewrite Hscore. }
  assert (Hnl : losses <> []).
  { intros ->. simpl in Hlen. destruct outputs; [congruence|discriminate]. }
  repeat split.
  - intros B HB.
    exists (mkTensor (length losses :: [B]) (flat_map data losses)).
    exists (neg (mkTensor [B; length losses]
                   (flat_map (fun j =>
                      flat_map (fun i => slice ((i * B + j) * 1) 1 (flat_map data losses))
                        (seq 0 (length losses))) (seq 0 B)))).
    rewrite Hfwd. unfold finish. rewrite (@stack_uniform losses [B] Hnl HB).
    rewrite Hlen, HK. repeat split.
  - intros s Hs HF. rewrite Hfwd. unfold finish.
    rewrite (@stack_uniform losses s Hnl HF). cbn [rbind]. unfold dim. cbn [shape length].
    destruct (S (length s) =? 2) eqn:E; [|reflexivity].
    apply Nat.eqb_eq in E. lia.
  - intros r Hr'. rewrite Hfwd in Hr'. simpl in Hr'. eapply finish_inv; eauto.
Qed.

(** ** Broadcasting between equal shapes *)

Lemma omapM_id :
  forall (A : Type) (f : A -> option A) (l : list A),
    (forall a, In a l -> f a = Some a) -> omapM f l = Some l.
Proof.
  intros A f l. induction l as [|a l IH]; intro H; simpl; [reflexivity|].
  rewrite (H a (or_introl eq_refl)), IH; [reflexivity|].
  intros b Hb. apply H. now right.
Qed.

Lemma chunks_S :
  forall (n size : nat) (d : list R),
    chunks (S n) size d = firstn size d :: chunks n size (skipn size d).
Proof.
  intros n size d. unfold chunks. cbn [seq map]. f_equal.
  rewrite <- seq_shift, map_map. apply map_ext. intro i.
  unfold slice. rewrite skipn_skipn. f_equal. f_equal. lia.
Qed.

Lemma concat_chunks :
  forall (n size : nat) (d : list R),
    length d = n * size -> concat (chunks n size d) = d.
Proof.
  induction n as [|n IH]; intros size d H.
  - destruct d; [reflexivity|discriminate].
  - rewrite chunks_S. cbn [concat]. rewrite IH.
    + apply firstn_skipn.
    + rewrite length_skipn. simpl in H. lia.
Qed.

Lemma chunks_length :
  forall (n size : nat) (d c : list R),
    length d = n * size -> In c (chunks n size d) -> length c = size.
Proof.
  intros n size d c H Hc. unfold chunks in Hc. apply in_map_iff in Hc.
  destruct Hc as [i [<- Hi]]. apply in_seq in Hi. apply length_slice. nia.
Qed.

Lemma expand_aligned_same :
  forall (s : list nat) (d : list R),
    length d = numel_of s -> expand_aligned s s d = Some d.
Proof.
  induction s as [|e s IH]; intros d H; simpl; [reflexivity|].
  rewrite Nat.eqb_refl. simpl in H.
  rewrite omapM_id.
  - simpl. now rewrite concat_chunks.
  - intros c Hc. apply IH. eapply chunks_length; eauto.
Qed.

Lemma pad_shape_same : forall s : list nat, pad_shape s (length s) = s.
Proof. intro s. unfold pad_shape. now rewrite Nat.sub_diag. Qed.

Lemma expand_same : forall t : Tensor, wf t -> expand t (shape t) = Some (data t).
Proof.
  intros t H. unfold expand. rewrite Nat.leb_refl, pad_shape_same.
  now apply expand_aligned_same.
Qed.

Lemma broadcast_aligned_same : forall s : list nat, broadcast_aligned s s = Some s.
Proof.
  induction s as [|a s IH]; simpl; [reflexivity|]. now rewrite IH, Nat.eqb_refl.
Qed.

Lemma broadcast_shapes_same : forall s : list nat, broadcast_shapes s s = Some s.
Proof.
  intro s. unfold broadcast_shapes. rewrite Nat.max_id, pad_shape_same.
  apply broadcast_aligned_same.
Qed.

Lemma mul_same_shape :
  forall a b : Tensor,
    wf a -> wf b -> shape a = shape b ->
    mul a b = Ok (mkTensor (shape a) (zip_with Rmult (data a) (data b))).
Proof.
  intros a b Ha Hb Hs. unfold mul. rewrite <- Hs, broadcast_shapes_same.
  rewrite (expand_same Ha). rewrite Hs, (expand_same Hb). reflexivity.
Qed.

Lemma add__same_shape :
  forall self other : Tensor,
    wf other -> shape other = shape self ->
    add_ self other = Ok (mkTensor (shape self) (zip_with Rplus (data self) (data other))).
Proof.
  intros self other Ho Hs. unfold add_. rewrite <- Hs, (expand_same Ho). reflexivity.
Qed.

Lemma nth_error_zip_with :
  forall (f : R -> R -> R) (l1 l2 : list R) (i : nat),
    nth_error (zip_with f l1 l2) i
    = match nth_error l1 i, nth_error l2 i with
      | Some a, Some b => Some (f a b)
      | _, _ => None
      end.
Proof.
  intros f l1. induction l1 as [|a l1 IH]; intros l2 i.
  - simpl. destruct i; reflexivity.
  - destruct l2 as [|b l2]; destruct i as [|i]; simpl; try reflexivity.
    + destruct (nth_error l1 i); reflexivity.
    + apply IH.
Qed.

Lemma length_zip_with :
  forall (f : R -> R -> R) (l1 l2 : list R),
    length (zip_with f l1 l2) = Nat.min (length l1) (length l2).
Proof.
  intros f l1. induction l1 as [|a l1 IH]; intros [|b l2]; simpl; auto.
Qed.

(** ** Training mode *)

(** C4: in training mode [reparameterize] draws [eps] with the shape of
    [std = exp(0.5 * logvar)] and returns [eps.mul(std).add_(mu)]; for [mu]
    and [logvar] of one shape the result has that shape and its entry [i] is
    [eps_i * exp(0.5 * logvar_i) + mu_i]. *)
Theorem reparameterize_training :
  forall (self : VAE) (mu logvar : Tensor) (w : World),
    training self = true ->
    let std := texp (scale 0.5%R logvar) in
    let eps := mkTensor (shape std) (fst (randn (numel std) (rng w))) in
    let w' := mkWorld (next_id w) (snd (randn (numel std) (rng w))) in
    randn_like std w = (Ok eps, w')
    /\ shape eps = shape std
    /\ reparameterize self mu logvar w = (rbind (mul eps std) (fun t => add_ t mu), w')
    /\ (randn_sized -> wf mu -> wf logvar -> shape mu = shape logvar ->
        exists z : Tensor,
          reparameterize self mu logvar w = (Ok z, w')
          /\ shape z = shape mu
          /\ forall i : nat,
               i < numel mu ->
               exists e l m : R,
                 nth_error (data eps) i = Some e
                 /\ nth_error (data logvar) i = Some l
                 /\ nth_error (data mu) i = Some m
                 /\ nth_error (data z) i = Some (e * exp (0.5 * l) + m)%R).
Proof.
  intros self mu logvar w Htr std eps w'.
  assert (Hrun : reparameterize self mu logvar w
                 = (rbind (mul eps std) (fun t => add_ t mu), w')).
  { unfold reparameterize. rewrite Htr. reflexivity. }
  repeat split; [exact Hrun|].
  intros Hrandn Hmu Hlv Hs.
  assert (Hstd : wf std).
  { unfold wf, numel, std, texp, scale, tmap in *. simpl. now rewrite !length_map. }
  assert (Heps : wf eps).
  { unfold wf, numel, eps. simpl. apply Hrandn. }
  assert (Hn : numel std = numel mu).
  { unfold numel, std, texp, scale, tmap. simpl. now rewrite Hs. }
  rewrite Hrun, (mul_same_shape Heps Hstd eq_refl). cbn [rbind].
  rewrite add__same_shape; [|exact Hmu|simpl; now rewrite Hs].
  eexists. split; [reflexivity|]. split; [simpl; now rewrite Hs|].
  intros i Hi. simpl.
  assert (He : i < length (fst (randn (numel std) (rng w)))) by (rewrite Hrandn; lia).
  assert (Hl : i < length (data logvar)).
  { unfold wf, numel in Hlv. unfold numel in Hi. rewrite Hlv, <- Hs. exact Hi. }
  assert (Hm : i < length (data mu)) by (unfold wf in Hmu; lia).
  destruct (nth_error (fst (randn (numel std) (rng w))) i) as [e|] eqn:Ee;
    [|apply nth_error_None in Ee; lia].
  destruct (nth_error (data logvar) i) as [l|] eqn:El;
    [|apply nth_error_None in El; lia].
  destruct (nth_error (data mu) i) as [m|] eqn:Em;
    [|apply nth_error_None in Em; lia].
  exists e, l, m. repeat split.
  rewrite !nth_error_zip_with, Ee, Em.
  unfold std, texp, scale, tmap. simpl.
  rewrite !nth_error_map, El. reflexivity.
Qed.

(** ** The parameters of the ensemble *)

Lemma Encoder_init_fresh :
  forall n : nat, fresh_block (Encoder_init n) Encoder_members 16.
Proof.
  intros n w. cbv -[numel_of IZR repeat ids Encoder_members seq Nat.add].
  eexists. eexists. split; [reflexivity|]. split; reflexivity.
Qed.

Lemma Decoder_init_fresh :
  forall n : nat, fresh_block (Decoder_init n) Decoder_members 14.
Proof.
  intros n w. cbv -[numel_of IZR repeat ids Decoder_members seq Nat.add].
  eexists. eexists. split; [reflexivity|]. split; reflexivity.
Qed.

Lemma ColorEncoder_init_fresh :
  forall n : nat, fresh_block (ColorEncoder_init n) ColorEncoder_members 20.
Proof.
  intros n w. cbv -[numel_of IZR repeat ids ColorEncoder_members seq Nat.add].
  eexists. eexists. split; [reflexivity|]. split; reflexivity.
Qed.

Lemma ColorDecoder_init_fresh :
  forall n : nat, fresh_block (ColorDecoder_init n) ColorDecoder_members 18.
Proof.
  intros n w. cbv -[numel_of IZR repeat ids ColorDecoder_members seq Nat.add].
  eexists. eexists. split; [reflexivity|]. split; reflexivity.
Qed.

Lemma VAE_init_fresh :
  forall (n : nat) (color : bool) (w : World),
    exists (v : VAE) (w' : World),
      VAE_init n color w = (Ok v, w')
      /\ ids (EncoderModule_members (encoder v)) = seq (next_id w) (enc_count color)
      /\ ids (DecoderModule_members (decoder v))
         = seq (next_id w + enc_count color) (dec_count color)
      /\ next_id w' = next_id w + (enc_count color + dec_count color).
Proof.
  intros n color w. destruct color; unfold VAE_init, bind, enc_count, dec_count.
  - destruct (ColorEncoder_init_fresh n w) as [e [w1 [E1 [He H1]]]]. rewrite E1.
    destruct (ColorDecoder_init_fresh n w1) as [d [w2 [E2 [Hd H2]]]]. rewrite E2.
    eexists. eexists. split; [reflexivity|].
    cbn [encoder decoder EncoderModule_members DecoderModule_members].
    rewrite He, Hd, H2, H1. repeat split; first [lia | f_equal; lia].
  - destruct (Encoder_init_fresh n w) as [e [w1 [E1 [He H1]]]]. rewrite E1.
    destruct (Decoder_init_fresh n w1) as [d [w2 [E2 [Hd H2]]]]. rewrite E2.
    eexists. eexists. split; [reflexivity|].
    cbn [encoder decoder EncoderModule_members DecoderModule_members].
    rewrite He, Hd, H2, H1. repeat split; first [lia | f_equal; lia].
Qed.

Lemma build_models_fresh :
  forall (n : nat) (color : bool) (l : list nat) (w : World),
    exists (ms : list VAE) (w' : World),
      mapM (fun _ => VAE_init n color) l w = (Ok ms, w')
      /\ length ms = length l
      /\ blocks (next_id w) (enc_count color) (dec_count color) ms.
Proof.
  intros n color l. induction l as [|x l IH]; intro w.
  - exists [], w. repeat split.
  - destruct (VAE_init_fresh n color w) as [v [w1 [E [He [Hd Hn]]]]].
    destruct (IH w1) as [ms [w2 [Em [Hlen Hb]]]].
    exists (v :: ms), w2. simpl. unfold bind. rewrite E, Em.
    repeat split; auto. now rewrite <- Hn.
Qed.

Lemma ids_app : forall l1 l2 : list Param, ids (l1 ++ l2) = ids l1 ++ ids l2.
Proof. intros. apply map_app. Qed.

Lemma blocks_members :
  forall (a b : nat) (ms : list VAE) (base : nat),
    blocks base a b ms ->
    ids (flat_map VAE_members ms) = seq base (length ms * (a + b)).
Proof.
  intros a b ms. induction ms as [|v ms IH]; intros base H; [reflexivity|].
  destruct H as [He [Hd Hb]]. cbn [flat_map length].
  rewrite ids_app, (IH _ Hb). unfold VAE_members.
  rewrite ids_app, <- app_assoc, He, Hd.
  replace (S (length ms) * (a + b)) with (a + (b + length ms * (a + b))) by lia.
  rewrite !seq_app. do 3 f_equal. lia.
Qed.

(** The memo leaves a list of distinct objects as it is. *)
Lemma dedup_NoDup :
  forall (l : list Param) (seen : list nat),
    NoDup (ids l) -> (forall p, In p l -> ~ In (pid p) seen) -> dedup seen l = l.
Proof.
  induction l as [|p l IH]; intros seen Hnd Hseen; simpl; [reflexivity|].
  inversion Hnd as [|? ? Hp Hl]; subst.
  replace (existsb (Nat.eqb (pid p)) seen) with false.
  - f_equal. apply IH; [exact Hl|]. intros q Hq [Heq|Hin].
    + apply Hp. rewrite Heq. now apply in_map.
    + apply (Hseen q); [now right|exact Hin].
  - symmetry. apply not_true_is_false. intro H. apply existsb_exists in H.
    destruct H as [i [Hi Heq]]. apply Nat.eqb_eq in Heq. subst i.
    apply (Hseen p); [now left|exact Hi].
Qed.

Lemma NoDup_ids_flat_map_in :
  forall (F : VAE -> list Param) (ms : list VAE) (v : VAE),
    NoDup (ids (flat_map F ms)) -> In v ms -> NoDup (ids (F v)).
Proof.
  intros F ms v. induction ms as [|x ms IH]; intros H Hv; [contradiction|].
  simpl in H. rewrite ids_app in H. destruct Hv as [->|Hv].
  - eapply NoDup_app_remove_r; eauto.
  - apply IH; [|exact Hv]. eapply NoDup_app_remove_l; eauto.
Qed.

Lemma flat_map_ext_in :
  forall (F G : VAE -> list Param) (ms : list VAE),
    (forall v, In v ms -> F v = G v) -> flat_map F ms = flat_map G ms.
Proof.
  intros F G ms. induction ms as [|x ms IH]; intro H; [reflexivity|].
  simpl. rewrite (H x (or_introl eq_refl)), IH; [reflexivity|].
  intros v Hv. apply H. now right.
Qed.

Lemma Permutation_flat_map_app :
  forall (F G : VAE -> list Param) (ms : list VAE),
    Permutation (flat_map F ms ++ flat_map G ms) (flat_map (fun v => F v ++ G v) ms).
Proof.
  intros F G ms. induction ms as [|x ms IH]; [constructor|]. simpl.
  rewrite <- !app_assoc. apply Permutation_app_head.
  etransitivity; [apply Permutation_app_swap_app|].
  apply Permutation_app_head. exact IH.
Qed.

Lemma NoDup_app_disjoint :
  forall (l1 l2 : list nat) (a : nat),
    NoDup (l1 ++ l2) -> In a l1 -> In a l2 -> False.
Proof.
  induction l1 as [|x l1 IH]; intros l2 a H H1 H2; [contradiction|].
  simpl in H. inversion H as [|? ? Hx Hr]; subst. destruct H1 as [->|H1].
  - apply Hx. apply in_or_app. now right.
  - eapply IH; eauto.
Qed.

(** C7: for an ensemble of class-VAEs, each built by the constructor of [VAE],
    no parameter object occurs twice in [encoder_parameters] followed by
    [decoder_parameters] (so the two lists share none), and together the two
    lists hold exactly the parameters of all the base models. *)
Theorem parameters_partition :
  forall (n_classes : nat) (beta : R) (abs_color : option bool) (ls : option R)
         (lf : option string) (n_latents : nat) (color : bool) (w : World),
    exists (self : ABS) (w' : World),
      ABS_new n_classes beta abs_color ls (Some (fun _ : list PyVal => VAE_init n_latents color))
        lf w = (Ok self, w')
      /\ length (base_models self) = n_classes
      /\ NoDup (ids (encoder_parameters self ++ decoder_parameters self))
      /\ (forall p q : Param,
            In p (encoder_parameters self) -> In q (decoder_parameters self) ->
            pid p <> pid q)
      /\ Permutation (encoder_parameters self ++ decoder_parameters self)
           (ModuleList_parameters (base_models self))
      /\ (forall p : Param,
            In p (ModuleList_parameters (base_models self))
            <-> In p (encoder_parameters self) \/ In p (decoder_parameters self)).
Proof.
  intros n_classes beta abs_color ls lf n_latents color w.
  destruct (build_models_fresh n_latents color (seq 0 n_classes) w)
    as [ms [w' [E [Hlen Hb]]]].
  exists (mkABS beta (default "vae"%string lf) ms
            (flat_map encoder_params ms) (flat_map decoder_params ms)), w'.
  assert (Hall : NoDup (ids (flat_map VAE_members ms))).
  { rewrite (blocks_members _ _ _ _ Hb). apply seq_NoDup. }
  assert (Hv : forall v, In v ms ->
            NoDup (ids (EncoderModule_members (encoder v)))
            /\ NoDup (ids (DecoderModule_members (decoder v)))).
  { intros v Hin. pose proof (NoDup_ids_flat_map_in VAE_members ms v Hall Hin) as H.
    unfold VAE_members in H. rewrite ids_app in H. split.
    - eapply NoDup_app_remove_r; eauto.
    - eapply NoDup_app_remove_l; eauto. }
  assert (Henc : flat_map encoder_params ms
                 = flat_map (fun v => EncoderModule_members (encoder v)) ms).
  { apply flat_map_ext_in. intros v Hin. unfold encoder_params.
    apply dedup_NoDup; [now apply Hv|]. intros p _ []. }
  assert (Hdec : flat_map decoder_params ms
                 = flat_map (fun v => DecoderModule_members (decoder v)) ms).
  { apply flat_map_ext_in. intros v Hin. unfold decoder_params.
    apply dedup_NoDup; [now apply Hv|]. intros p _ []. }
  assert (HML : ModuleList_parameters ms = flat_map VAE_members ms).
  { unfold ModuleList_parameters. apply dedup_NoDup; [exact Hall|]. intros p _ []. }
  assert (HP : Permutation (flat_map encoder_params ms ++ flat_map decoder_params ms)
                 (ModuleList_parameters ms)).
  { rewrite Henc, Hdec, HML.
    apply (Permutation_flat_map_app
             (fun v => EncoderModule_members (encoder v))
             (fun v => DecoderModule_members (decoder v)) ms). }
  assert (HN : NoDup (ids (flat_map encoder_params ms ++ flat_map decoder_params ms))).
  { apply (Permutation_NoDup (l := ids (ModuleList_parameters ms))).
    - apply Permutation_map. symmetry. exact HP.
    - rewrite HML. exact Hall. }
  cbn [base_models encoder_parameters decoder_parameters].
  split; [|split; [|split; [|split; [|split]]]].
  - unfold ABS_new, ABS_init, bind, default. rewrite E. reflexivity.
  - rewrite Hlen. apply length_seq.
  - exact HN.
  - intros p q Hp Hq Heq. rewrite ids_app in HN.
    apply (NoDup_app_disjoint _ _ (pid p) HN).
    + now apply in_map.
    + rewrite Heq. now apply in_map.
  - exact HP.
  - intro p. rewrite <- in_app_iff. split; intro H.
    + eapply Permutation_in; [symmetry; exact HP|exact H].
    + eapply Permutation_in; [exact HP|exact H].
Qed.

(** * Further properties *)

(** ** Shapes through the networks *)

(** A layer without its weights: what decides the shape of its output. *)
Inductive LayerSpec : Type :=
| ConvS (cin cout k s : nat)
| ConvTS (cin cout k s : nat)
| BNS (n : nat)
| ELUS.

Definition Conv2d_spec (c : Conv2d) : LayerSpec :=
  ConvS (conv_in c) (conv_out c) (conv_kernel c) (conv_stride c).

Definition ConvTranspose2d_spec (c : ConvTranspose2d) : LayerSpec :=
  ConvTS (convT_in c) (convT_out c) (convT_kernel c) (convT_stride c).

Definition Layer_spec (l : Layer) : LayerSpec :=
  match l with
  | Conv2dL c => Conv2d_spec c
  | ConvTranspose2dL c => ConvTranspose2d_spec c
  | BatchNorm2dL b => BNS (bn_features b)
  | ELUL => ELUS
  end.

(** The size of a spatial dimension after a convolution and after a
    transposed convolution, both without padding or dilation, as the layers
    of the file are built. *)
Definition conv_size (k s h : nat) : nat := (h - k) / s + 1.
Definition convT_size (k s h : nat) : nat := (h - 1) * s + k.

(** Channels, height and width after a layer; [None] where the layer refuses
    its input. *)
Definition spec_shape (l : LayerSpec) (i : nat * nat * nat) : option (nat * nat * nat) :=
  let '(c, h, w) := i in
  match l with
  | ConvS cin cout k s =>
      if (c =? cin) && (1 <=? s) && (k <=? h) && (k <=? w)
      then Some (cout, conv_size k s h, conv_size k s w)
      else None
  | ConvTS cin cout k s =>
      if (c =? cin) && (1 <=? s) && (1 <=? h) && (1 <=? w)
      then Some (cout, convT_size k s h, convT_size k s w)
      else None
  | BNS n => if c =? n then Some (c, h, w) else None
  | ELUS => Some (c, h, w)
  end.

Fixpoint specs_shape (ls : list LayerSpec) (i : nat * nat * nat) : option (nat * nat * nat) :=
  match ls with
  | [] => Some i
  | l :: ls' =>
      match spec_shape l i with
      | Some j => specs_shape ls' j
      | None => None
      end
  end.

(** The shape of a batch of [b] images. *)
Definition batch_shape (b : nat) (i : nat * nat * nat) : list nat :=
  let '(c, h, w) := i in [b; c; h; w].

(** The layers of the library give their output the shape their
    hyper-parameters decide. *)
Definition layers_respect_shapes : Prop :=
  (forall (c : Conv2d) (x y : Tensor) (b : nat) (i o : nat * nat * nat),
      conv2d c x = Ok y -> shape x = batch_shape b i ->
      spec_shape (Conv2d_spec c) i = Some o -> shape y = batch_shape b o)
  /\ (forall (c : ConvTranspose2d) (x y : Tensor) (b : nat) (i o : nat * nat * nat),
      conv_transpose2d c x = Ok y -> shape x = batch_shape b i ->
      spec_shape (ConvTranspose2d_spec c) i = Some o -> shape y = batch_shape b o)
  /\ (forall (n : BatchNorm2d) (x y : Tensor) (b : nat) (i o : nat * nat * nat),
      batch_norm2d n x = Ok y -> shape x = batch_shape b i ->
      spec_shape (BNS (bn_features n)) i = Some o -> shape y = batch_shape b o).

(** The children of an encoder and of a decoder, whichever class it is. *)
Definition trunk_of (e : EncoderModule) : Sequential :=
  match e with
  | GrayEncoder e => enc_shared e
  | ColEncoder e => cenc_shared e
  end.

Definition mu_head (e : EncoderModule) : Conv2d :=
  match e with
  | GrayEncoder e => enc_conv_mu e
  | ColEncoder e => cenc_conv_mu e
  end.

Definition logvar_head (e : EncoderModule) : Conv2d :=
  match e with
  | GrayEncoder e => enc_conv_logvar e
  | ColEncoder e => cenc_conv_logvar e
  end.

Definition layers_of (d : DecoderModule) : Sequential :=
  match d with
  | GrayDecoder d => dec_layers d
  | ColDecoder d => cdec_layers d
  end.

(** The architecture of a VAE: its layers without their weights. *)
Record Arch : Type := mkArch {
  arch_trunk : list LayerSpec; arch_mu : LayerSpec; arch_logvar : LayerSpec;
  arch_decoder : list LayerSpec }.

Definition VAE_arch (v : VAE) : Arch :=
  mkArch (map Layer_spec (trunk_of (encoder v))) (Conv2d_spec (mu_head (encoder v)))
    (Conv2d_spec (logvar_head (encoder v))) (map Layer_spec (layers_of (decoder v))).

Lemma Layer_forward_shape :
  layers_respect_shapes ->
  forall (l : Layer) (x y : Tensor) (b : nat) (i o : nat * nat * nat),
    Layer_forward l x = Ok y -> shape x = batch_shape b i ->
    spec_shape (Layer_spec l) i = Some o -> shape y = batch_shape b o.
Proof.
  intros [Hc [Ht Hb]] l x y b i o Hf Hx Hs. destruct l as [c|c|n|]; simpl in *.
  - eapply Hc; eauto.
  - eapply Ht; eauto.
  - eapply Hb; eauto.
  - injection Hf as <-. destruct i as [[c h] w]. injection Hs as <-. exact Hx.
Qed.

Lemma Sequential_forward_shape :
  layers_respect_shapes ->
  forall (ls : Sequential) (x y : Tensor) (b : nat) (i o : nat * nat * nat),
    Sequential_forward ls x = Ok y -> shape x = batch_shape b i ->
    specs_shape (map Layer_spec ls) i = Some o -> shape y = batch_shape b o.
Proof.
  intros HL ls. induction ls as [|l ls IH]; intros x y b i o Hf Hx Hs; simpl in *.
  - injection Hf as <-. injection Hs as <-. exact Hx.
  - destruct (Layer_forward l x) as [x1|e] eqn:E1; simpl in Hf; [|discriminate].
    destruct (spec_shape (Layer_spec l) i) as [j|] eqn:Ej; [|discriminate].
    eapply IH; eauto. eapply Layer_forward_shape; eauto.
Qed.

(** The layers the constructors of the file lay down, by colour flag. *)
Definition grey_arch (n : nat) : Arch :=
  mkArch
    [ ConvS 1 32 5 1; BNS 32; ELUS; ConvS 32 32 4 2; BNS 32; ELUS;
      ConvS 32 64 3 2; BNS 64; ELUS ]
    (ConvS 64 n 5 1) (ConvS 64 n 5 1)
    [ ConvTS n 32 4 1; BNS 32; ELUS; ConvTS 32 16 5 2; BNS 16; ELUS;
      ConvTS 16 16 5 2; BNS 16; ELUS; ConvTS 16 1 4 1 ].

Definition color_arch (n : nat) : Arch :=
  mkArch
    [ ConvS 3 32 5 1; BNS 32; ELUS; ConvS 32 32 4 2; BNS 32; ELUS;
      ConvS 32 32 3 1; BNS 32; ELUS; ConvS 32 64 3 2; BNS 64; ELUS ]
    (ConvS 64 n 5 1) (ConvS 64 n 5 1)
    [ ConvTS n 32 4 1; BNS 32; ELUS; ConvTS 32 32 5 2; BNS 32; ELUS;
      ConvTS 32 16 3 1; BNS 16; ELUS; ConvTS 16 16 5 2; BNS 16; ELUS;
      ConvTS 16 3 4 1 ].

Lemma VAE_init_arch_computed :
  forall (n : nat) (color : bool) (w : World),
    match fst (VAE_init n color w) with
    | Ok v => VAE_arch v = if color then color_arch n else grey_arch n
    | Raise _ => False
    end.
Proof.
  intros n color w. destruct color; cbv -[numel_of IZR repeat]; reflexivity.
Qed.

Lemma VAE_init_arch :
  forall (n : nat) (color : bool) (w w' : World) (v : VAE),
    VAE_init n color w = (Ok v, w') ->
    VAE_arch v = if color then color_arch n else grey_arch n.
Proof.
  intros n color w w' v H. pose proof (VAE_init_arch_computed n color w) as A.
  rewrite H in A. exact A.
Qed.

Lemma EncoderModule_forward_children :
  forall (e : EncoderModule) (x : Tensor),
    EncoderModule_forward e x
    = (shared <- Sequential_forward (trunk_of e) x ;;
       mu <- conv2d (mu_head e) shared ;;
       logvar <- conv2d (logvar_head e) shared ;;
       Ok (mu, logvar))%res.
Proof. intros [e|e] x; reflexivity. Qed.

Lemma DecoderModule_forward_children :
  forall (d : DecoderModule) (z : Tensor),
    DecoderModule_forward d z
    = (y <- Sequential_forward (layers_of d) z ;; Ok (tmap sigmoid y))%res.
Proof. intros [d|d] z; reflexivity. Qed.

(** The sample has the shape of [logvar] in training mode (the in-place sum
    keeps the shape of [eps * std]) and is [mu] otherwise. *)
Lemma reparameterize_result_shape :
  forall (self : VAE) (mu logvar z : Tensor) (w w' : World),
    reparameterize self mu logvar w = (Ok z, w') ->
    shape z = if training self then shape logvar else shape mu.
Proof.
  intros self mu logvar z w w' H. unfold reparameterize in H.
  destruct (training self).
  - unfold bind, randn_like, lift in H. cbn [fst snd] in H.
    set (eps := mkTensor _ _) in H. set (std := texp (scale 0.5%R logvar)) in *.
    destruct (mul eps std) as [t|e] eqn:Em; cbn [rbind] in H; [|discriminate].
    unfold mul in Em. change (shape eps) with (shape std) in Em.
    rewrite broadcast_shapes_same in Em.
    destruct (expand eps (shape std)); [|discriminate].
    destruct (expand std (shape std)); [|discriminate].
    injection Em as <-. unfold add_ in H. cbn [shape] in H.
    destruct (expand mu _); [|discriminate].
    injection H as <- _. reflexivity.
  - injection H as <- _. reflexivity.
Qed.

(** Shape inference is sound for the forward pass of a VAE. *)
Lemma VAE_forward_shape_inferred :
  layers_respect_shapes ->
  forall (v : VAE) (x rec mu logvar : Tensor) (b : nat) (i j' j o : nat * nat * nat)
         (w w' : World),
    shape x = batch_shape b i ->
    specs_shape (arch_trunk (VAE_arch v)) i = Some j' ->
    spec_shape (arch_mu (VAE_arch v)) j' = Some j ->
    spec_shape (arch_logvar (VAE_arch v)) j' = Some j ->
    specs_shape (arch_decoder (VAE_arch v)) j = Some o ->
    VAE_forward v x w = (Ok (rec, mu, logvar), w') ->
    shape mu = batch_shape b j /\ shape logvar = batch_shape b j
    /\ shape rec = batch_shape b o.
Proof.
  intros HL v x rec mu logvar b i j' j o w w' Hx Ht Hm Hv Hd H.
  unfold VAE_forward, bind, lift in H.
  rewrite EncoderModule_forward_children in H.
  destruct (Sequential_forward (trunk_of (encoder v)) x) as [sh|e] eqn:Es;
    cbn [rbind] in H; [|discriminate].
  destruct (conv2d (mu_head (encoder v)) sh) as [m|e] eqn:Emu;
    cbn [rbind] in H; [|discriminate].
  destruct (conv2d (logvar_head (encoder v)) sh) as [lv|e] eqn:Elv;
    cbn [rbind] in H; [|discriminate].
  destruct (reparameterize v m lv w) as [[z|e] w1] eqn:Ez; [|discriminate].
  rewrite DecoderModule_forward_children in H.
  destruct (Sequential_forward (layers_of (decoder v)) z) as [y|e] eqn:Ey;
    cbn [rbind] in H; [|discriminate].
  injection H as <- <- <- _.
  pose proof (Sequential_forward_shape HL _ _ _ _ Es Hx Ht) as Hsh.
  destruct HL as [Hc HL'].
  pose proof (Hc _ _ _ _ _ _ Emu Hsh Hm) as Hsm.
  pose proof (Hc _ _ _ _ _ _ Elv Hsh Hv) as Hsl.
  assert (Hz : shape z = batch_shape b j).
  { rewrite (reparameterize_result_shape _ _ _ _ Ez). now destruct (training v). }
  repeat split; auto.
  cbn [tmap shape].
  exact (Sequential_forward_shape (conj Hc HL') _ _ _ _ Ey Hz Hd).
Qed.

(** ** The ensemble in evaluation mode *)

Lemma run_base_models_eval :
  forall (ms : list VAE) (x : Tensor) (w : World),
    Forall (fun v => training v = false) ms ->
    mapM (fun base_model => VAE_forward base_model x) ms w
    = (rmapM (fun base_model => VAE_forward_eval base_model x) ms, w).
Proof.
  intros ms x w H. induction H as [|v ms Hv Hms IH]; [reflexivity|].
  simpl. unfold bind. rewrite (VAE_forward_eval_run v x w Hv).
  destruct (VAE_forward_eval v x) as [o|e]; [|reflexivity].
  rewrite IH. cbn [rbind].
  destruct (rmapM (fun base_model => VAE_forward_eval base_model x) ms); reflexivity.
Qed.

(** X1: when every base model is in evaluation mode, the forward pass of the
    ensemble draws nothing: it leaves the world as it was and returns the same
    logits, reconstructions, means and log-variances (or raises the same
    error) from every state of the random generator. *)
Theorem ABS_forward_eval_deterministic :
  forall (self : ABS) (x : Tensor),
    Forall (fun v => training v = false) (base_models self) ->
    (forall w : World, snd (ABS_forward self x w) = w)
    /\ (forall w1 w2 : World, fst (ABS_forward self x w1) = fst (ABS_forward self x w2)).
Proof.
  intros self x H. split.
  - intro w. rewrite ABS_forward_staged. unfold run_base_models.
    rewrite (run_base_models_eval x w H). reflexivity.
  - intros w1 w2. rewrite !ABS_forward_staged. unfold run_base_models.
    rewrite (run_base_models_eval x w1 H), (run_base_models_eval x w2 H). reflexivity.
Qed.

(** ** Logits against losses *)

Lemma logit_entry :
  forall (self : ABS) (x : Tensor) outputs (logits recs mus logvars : Tensor)
         (losses : list Tensor) (t : Tensor) (k b : nat) (v : R),
    (forall o u, class_loss self x o = Ok u -> wf u) ->
    score self x outputs = Ok (logits, recs, mus, logvars) ->
    rmapM (class_loss self x) outputs = Ok losses ->
    nth_error losses k = Some t ->
    item t [b] = Some v ->
    item logits [b; k] = Some (- v)%R.
Proof.
  intros self x outputs logits recs mus logvars losses t k b v Hwf Hscore Hl Hk Hv.
  destruct (@score_inv _ _ _ _ _ _ _ Hscore)
    as [losses' [stacked [tr [_ [_ [_ [_ [Hl' [Hst [Hdim [Ht ->]]]]]]]]]]].
  rewrite Hl in Hl'. injection Hl' as <-.
  pose proof (@rmapM_Forall2 _ _ _ _ _ Hl) as HF.
  destruct (@stack_inv _ _ Hst) as [s [_ [Hs [Hshape _]]]].
  assert (exists B, s = [B]) as [B ->].
  { unfold dim in Hdim. rewrite Hshape in Hdim. simpl in Hdim.
    destruct s as [|B [|? ?]]; simpl in Hdim; try discriminate. now exists B. }
  assert (Hwfl : Forall wf losses).
  { clear - HF Hwf. induction HF as [|o u os us Hou HF IH]; constructor; eauto. }
  assert (Hst' : shape t = [B]).
  { rewrite Forall_forall in Hs. apply Hs. eapply nth_error_In; eauto. }
  assert (Hb : b < B).
  { unfold item in Hv. rewrite Hst' in Hv. simpl in Hv.
    destruct (b <? B) eqn:E; [now apply Nat.ltb_lt|discriminate]. }
  assert (Hkl : k < length losses) by (apply nth_error_Some; congruence).
  destruct (@stack_rank1_item losses stacked t B k b Hst Hs Hwfl Hk Hb)
    as [Hsh [Hwfs Hitem]].
  destruct (@transpose01_rank2 stacked tr (length losses) B k b Hsh Hwfs Ht Hkl Hb)
    as [_ Htr].
  rewrite item_neg, Htr, Hitem, Hv. reflexivity.
Qed.

(** X2: a lower loss is a higher logit.  When the forward pass returns, for
    every sample [b] and classes [k1], [k2], the logit of [k1] is above the
    logit of [k2] exactly when the loss of [k1] is below the loss of [k2]; so
    the class of greatest logit is the class of least loss. *)
Theorem logits_reverse_losses :
  forall (self : ABS) (x : Tensor) (w w' : World) (logits recs mus logvars : Tensor),
    (forall o u, class_loss self x o = Ok u -> wf u) ->
    ABS_forward self x w = (Ok (logits, recs, mus, logvars), w') ->
    exists (outputs : list (Tensor * Tensor * Tensor)) (losses : list Tensor),
      run_base_models self x w = (Ok outputs, w')
      /\ rmapM (class_loss self x) outputs = Ok losses
      /\ forall (b k1 k2 : nat) (t1 t2 : Tensor) (v1 v2 : R),
           nth_error losses k1 = Some t1 -> nth_error losses k2 = Some t2 ->
           item t1 [b] = Some v1 -> item t2 [b] = Some v2 ->
           exists g1 g2 : R,
             item logits [b; k1] = Some g1 /\ item logits [b; k2] = Some g2
             /\ (g2 < g1 <-> v1 < v2)%R
             /\ (g1 = g2 <-> v1 = v2).
Proof.
  intros self x w w' logits recs mus logvars Hwf H.
  destruct (@ABS_forward_inv _ _ _ _ _ _ _ _ H) as [outputs [Hrun [_ Hscore]]].
  destruct (@score_inv _ _ _ _ _ _ _ Hscore)
    as [losses [_ [_ [_ [_ [_ [_ [Hl _]]]]]]]].
  exists outputs, losses. split; [exact Hrun|]. split; [exact Hl|].
  intros b k1 k2 t1 t2 v1 v2 Hk1 Hk2 Hv1 Hv2.
  exists (- v1)%R, (- v2)%R.
  rewrite (@logit_entry _ _ _ _ _ _ _ _ _ _ _ _ Hwf Hscore Hl Hk1 Hv1).
  rewrite (@logit_entry _ _ _ _ _ _ _ _ _ _ _ _ Hwf Hscore Hl Hk2 Hv2).
  repeat split; intros; lra.
Qed.

(** ** An ensemble without classes *)

(** X3: with [n_classes = 0] the factory is never called, so the constructor
    returns an empty ensemble whatever the factory (the default one too), and
    the forward pass of an ensemble without base models raises [ValueError] on
    every input. *)
Theorem ABS_without_classes :
  (forall (beta : R) (color : option bool) (ls : option R) (f : option Callable)
          (lf : option string) (w : World),
      ABS_new 0 beta color ls f lf w = (Ok (mkABS beta (default "vae"%string lf) [] [] []), w))
  /\ (forall (self : ABS) (x : Tensor) (w : World),
        base_models self = [] ->
        ABS_forward self x w
        = (Raise (ValueError "not enough values to unpack (expected 3, got 0)"), w)).
Proof.
  split.
  - intros. reflexivity.
  - intros self x w H. rewrite ABS_forward_staged. unfold run_base_models.
    rewrite H. reflexivity.
Qed.

(** ** The sample in training mode *)

Lemma wf_std : forall logvar : Tensor, wf logvar -> wf (texp (scale 0.5%R logvar)).
Proof.
  intros logvar H. unfold wf, numel, texp, scale, tmap in *. simpl.
  now rewrite !length_map.
Qed.

(** What the draw and the product leave before the in-place sum. *)
Lemma reparameterize_training_run :
  forall (self : VAE) (mu logvar : Tensor) (w : World),
    training self = true -> randn_sized -> wf logvar ->
    reparameterize self mu logvar w
    = (add_ (mkTensor (shape logvar)
               (zip_with Rmult (fst (randn (numel logvar) (rng w)))
                  (data (texp (scale 0.5%R logvar))))) mu,
       mkWorld (next_id w) (snd (randn (numel logvar) (rng w)))).
Proof.
  intros self mu logvar w Htr Hr Hlv. unfold reparameterize. rewrite Htr.
  unfold bind, randn_like, lift. cbn [fst snd].
  set (std := texp (scale 0.5%R logvar)).
  change (numel std) with (numel logvar). change (shape std) with (shape logvar).
  set (eps := mkTensor (shape logvar) (fst (randn (numel logvar) (rng w)))).
  assert (Heps : wf eps) by (unfold wf, eps; simpl; apply Hr).
  rewrite (@mul_same_shape eps std Heps (@wf_std logvar Hlv) eq_refl). reflexivity.
Qed.

(** X4: in training mode the sample takes the shape of [logvar], also when
    [mu] is broadcast into it, because the sum is made in place on
    [eps * std]; and a [mu] of higher rank than [logvar] cannot be added in
    place: the call raises [RuntimeError]. *)
Theorem reparameterize_training_shape :
  forall (self : VAE) (mu logvar : Tensor) (w : World),
    training self = true -> randn_sized -> wf logvar ->
    (forall (z : Tensor) (w' : World),
        reparameterize self mu logvar w = (Ok z, w') -> shape z = shape logvar)
    /\ (length (shape logvar) < length (shape mu) ->
        fst (reparameterize self mu logvar w)
        = Raise (RuntimeError "output with shape doesn't match the broadcast shape")).
Proof.
  intros self mu logvar w Htr Hr Hlv. split.
  - intros z w' H. rewrite (@reparameterize_result_shape _ _ _ _ _ _ H), Htr. reflexivity.
  - intro Hlen. rewrite (@reparameterize_training_run self mu logvar w Htr Hr Hlv). cbn [fst].
    unfold add_, expand. cbn [shape].
    replace (length (shape mu) <=? length (shape logvar)) with false; [reflexivity|].
    symmetry. apply Nat.leb_gt. exact Hlen.
Qed.

(** ** What [get_base_model] builds *)

Lemma VAE_init_fields_computed :
  forall (n : nat) (color : bool) (w : World),
    match fst (VAE_init n color w) with
    | Ok v => n_latents v = n /\ training v = true
    | Raise _ => False
    end.
Proof.
  intros n color w. destruct color; cbv -[numel_of IZR repeat]; split; reflexivity.
Qed.

(** X7: for the kind ['vae'], [get_base_model] always builds the grey-scale
    VAE (no colour flag is passed on): one input and one output channel,
    [n_latents_per_class] latent channels, in training mode, made of the next
    thirty fresh parameter objects. *)
Theorem get_base_model_vae_is_grey :
  forall (args : Args) (w : World),
    base_model args = "vae"%string ->
    exists (v : VAE) (w' : World),
      get_base_model args w = (Ok (IsVAE v), w')
      /\ n_latents v = n_latents_per_class args
      /\ training v = true
      /\ VAE_arch v = grey_arch (n_latents_per_class args)
      /\ ids (VAE_members v) = seq (next_id w) 30
      /\ next_id w' = next_id w + 30.
Proof.
  intros args w H. unfold get_base_model. rewrite H.
  change ("vae" =? "one_lip_ae")%string with false.
  change ("vae" =? "vae")%string with true. cbv iota.
  destruct (VAE_init_fresh (n_latents_per_class args) false w)
    as [v [w' [E [He [Hd Hn]]]]].
  pose proof (VAE_init_fields_computed (n_latents_per_class args) false w) as Hf.
  pose proof (@VAE_init_arch _ _ _ _ _ E) as Ha.
  rewrite E in Hf. cbn [fst] in Hf. destruct Hf as [Hnl Htr].
  exists v, w'. unfold bind. rewrite E.
  split; [reflexivity|]. split; [exact Hnl|]. split; [exact Htr|].
  split; [exact Ha|]. split; [|exact Hn].
  unfold VAE_members. rewrite ids_app, He, Hd. unfold enc_count, dec_count.
  now rewrite <- (seq_app 16 14).
Qed.

(** ** Failures of the factory *)

Lemma mapM_ignore_elements :
  forall (A B : Type) (m : M B) (l1 l2 : list A),
    length l1 = length l2 -> mapM (fun _ => m) l1 = mapM (fun _ => m) l2.
Proof.
  intros A B m l1. induction l1 as [|a l1 IH]; intros [|b l2] H; try discriminate.
  - reflexivity.
  - simpl. rewrite (IH l2); [reflexivity|]. simpl in H. lia.
Qed.

Lemma mapM_raise_after :
  forall (A B : Type) (f : A -> M B) (l1 l2 : list A) (a : A) (bs : list B)
         (e : PyError) (w w1 w2 : World),
    mapM f l1 w = (Ok bs, w1) -> f a w1 = (Raise e, w2) ->
    mapM f (l1 ++ a :: l2) w = (Raise e, w2).
Proof.
  intros A B f l1. induction l1 as [|x l1 IH]; intros l2 a bs e w w1 w2 H1 H2.
  - simpl in H1. injection H1 as _ <-. simpl. unfold bind. rewrite H2. reflexivity.
  - simpl in H1. unfold bind in H1.
    destruct (f x w) as [[b|e'] w0] eqn:Ex; [|discriminate].
    destruct (mapM f l1 w0) as [[bs'|e'] w0'] eqn:El; [|discriminate].
    injection H1 as _ <-. simpl. unfold bind. rewrite Ex.
    rewrite (IH l2 a bs' e w0 w0' w2 El H2). reflexivity.
Qed.

(** X8: the constructor builds the classes in order and stops at the first
    failure: if the factory returns for the first [i] classes and raises for
    the next one, the constructor raises that error, in the world the failed
    call left, and no ensemble is built. *)
Theorem ABS_init_factory_error :
  forall (n_classes i : nat) (beta : R) (color : option bool) (ls : option R)
         (f : Callable) (lf : option string) (ms : list VAE) (e : PyError)
         (w w1 w2 : World),
    i < n_classes ->
    mapM (fun _ : nat => f []) (seq 0 i) w = (Ok ms, w1) ->
    f [] w1 = (Raise e, w2) ->
    ABS_new n_classes beta color ls (Some f) lf w = (Raise e, w2).
Proof.
  intros n_classes i beta color ls f lf ms e w w1 w2 Hi Hms He.
  unfold ABS_new, ABS_init, bind, default.
  replace n_classes with (i + S (n_classes - S i)) by lia.
  rewrite seq_app. cbn [seq].
  rewrite (@mapM_raise_after nat VAE (fun _ => f []) (seq 0 i) _ (0 + i) ms e w w1 w2 Hms He).
  reflexivity.
Qed.

(** ** How many parameters *)

Lemma blocks_lengths :
  forall (a b : nat) (ms : list VAE) (base : nat),
    blocks base a b ms ->
    length (flat_map (fun v => EncoderModule_members (encoder v)) ms) = length ms * a
    /\ length (flat_map (fun v => DecoderModule_members (decoder v)) ms) = length ms * b.
Proof.
  intros a b ms. induction ms as [|v ms IH]; intros base H; [split; reflexivity|].
  destruct H as [He [Hd Hb]]. destruct (IH _ Hb) as [IHe IHd].
  cbn [flat_map length]. rewrite !length_app, IHe, IHd.
  apply (f_equal (@length nat)) in He, Hd. unfold ids in He, Hd.
  rewrite length_map, length_seq in He, Hd. rewrite He, Hd. split; lia.
Qed.

Lemma build_models_next_id :
  forall (n : nat) (color : bool) (l : list nat) (w w' : World) (ms : list VAE),
    mapM (fun _ => VAE_init n color) l w = (Ok ms, w') ->
    next_id w' = next_id w + length l * (enc_count color + dec_count color).
Proof.
  intros n color l. induction l as [|x l IH]; intros w w' ms H.
  - simpl in H. injection H as _ <-. simpl. lia.
  - simpl in H. unfold bind in H.
    destruct (VAE_init_fresh n color w) as [v [w1 [E [_ [_ Hn]]]]]. rewrite E in H.
    destruct (mapM (fun _ => VAE_init n color) l w1) as [[ms'|e] w2] eqn:El; [|discriminate].
    injection H as _ <-. rewrite (IH _ _ _ El), Hn. simpl. lia.
Qed.

(** X9: an ensemble of [n_classes] VAEs from the constructor of [VAE] lists
    16 encoder and 14 decoder parameter tensors per grey class, 20 and 18 per
    colour class; construction makes exactly that many new parameter objects,
    all of them new to the world, and nothing else. *)
Theorem parameter_counts :
  forall (n_classes : nat) (beta : R) (abs_color : option bool) (ls : option R)
         (lf : option string) (n_latents : nat) (color : bool) (w : World),
    exists (self : ABS) (w' : World),
      ABS_new n_classes beta abs_color ls (Some (fun _ : list PyVal => VAE_init n_latents color))
        lf w = (Ok self, w')
      /\ length (encoder_parameters self) = n_classes * (if color then 20 else 16)
      /\ length (decoder_parameters self) = n_classes * (if color then 18 else 14)
      /\ next_id w' = next_id w + n_classes * (if color then 38 else 30)
      /\ ids (ModuleList_parameters (base_models self))
         = seq (next_id w) (n_classes * (if color then 38 else 30)).
Proof.
  intros n_classes beta abs_color ls lf n_latents color w.
  destruct (build_models_fresh n_latents color (seq 0 n_classes) w)
    as [ms [w' [E [Hlen Hb]]]].
  rewrite length_seq in Hlen.
  exists (mkABS beta (default "vae"%string lf) ms
            (flat_map encoder_params ms) (flat_map decoder_params ms)), w'.
  pose proof (blocks_members _ _ _ _ Hb) as Hids.
  assert (Hall : NoDup (ids (flat_map VAE_members ms))).
  { rewrite Hids. apply seq_NoDup. }
  assert (Hv : forall v, In v ms ->
            NoDup (ids (EncoderModule_members (encoder v)))
            /\ NoDup (ids (DecoderModule_members (decoder v)))).
  { intros v Hin. pose proof (NoDup_ids_flat_map_in VAE_members ms v Hall Hin) as H.
    unfold VAE_members in H. rewrite ids_app in H. split.
    - eapply NoDup_app_remove_r; eauto.
    - eapply NoDup_app_remove_l; eauto. }
  assert (Henc : flat_map encoder_params ms
                 = flat_map (fun v => EncoderModule_members (encoder v)) ms).
  { apply flat_map_ext_in. intros v Hin. unfold encoder_params.
    apply dedup_NoDup; [now apply Hv|]. intros p _ []. }
  assert (Hdec : flat_map decoder_params ms
                 = flat_map (fun v => DecoderModule_members (decoder v)) ms).
  { apply flat_map_ext_in. intros v Hin. unfold decoder_params.
    apply dedup_NoDup; [now apply Hv|]. intros p _ []. }
  assert (HML : ModuleList_parameters ms = flat_map VAE_members ms).
  { unfold ModuleList_parameters. apply dedup_NoDup; [exact Hall|]. intros p _ []. }
  destruct (blocks_lengths _ _ _ _ Hb) as [Hle Hld].
  pose proof (build_models_next_id _ _ _ _ E) as Hn. rewrite length_seq in Hn.
  cbn [base_models encoder_parameters decoder_parameters].
  split; [|split; [|split; [|split]]].
  - unfold ABS_new, ABS_init, bind, default. rewrite E. reflexivity.
  - rewrite Henc, Hle, Hlen. now destruct color.
  - rewrite Hdec, Hld, Hlen. now destruct color.
  - rewrite Hn. now destruct color.
  - rewrite HML, Hids, Hlen. now destruct color.
Qed.

(** ** Where the noise goes *)

(** The [mu] and [logvar] a forward pass returns are those of the encoder. *)
Lemma VAE_forward_latents :
  forall (self : VAE) (x rec mu logvar : Tensor) (w w' : World),
    VAE_forward self x w = (Ok (rec, mu, logvar), w') ->
    EncoderModule_forward (encoder self) x = Ok (mu, logvar).
Proof.
  intros self x rec mu logvar w w' H. unfold VAE_forward, bind, lift in H.
  destruct (EncoderModule_forward (encoder self) x) as [[m l]|e]; [|discriminate].
  destruct (reparameterize self m l w) as [[z|e] w1]; [|discriminate].
  destruct (DecoderModule_forward (decoder self) z) as [y|e]; [|discriminate].
  cbn in H. now injection H as _ <- <- _.
Qed.

Lemma run_base_models_latents :
  forall (ms : list VAE) (x : Tensor) (w w' : World)
         (outputs : list (Tensor * Tensor * Tensor)),
    mapM (fun base_model => VAE_forward base_model x) ms w = (Ok outputs, w') ->
    rmapM (fun base_model => EncoderModule_forward (encoder base_model) x) ms
    = Ok (map (fun o => (snd (fst o), snd o)) outputs).
Proof.
  intros ms x. induction ms as [|v ms IH]; intros w w' outputs H.
  - simpl in H. injection H as <- _. reflexivity.
  - simpl in H. unfold bind in H.
    destruct (VAE_forward v x w) as [[[[rec mu] logvar]|e] w1] eqn:Ev; [|discriminate].
    destruct (mapM (fun base_model => VAE_forward base_model x) ms w1)
      as [[os|e] w2] eqn:Em; [|discriminate].
    cbn in H. injection H as <- _. simpl.
    rewrite (@VAE_forward_latents _ _ _ _ _ _ _ Ev). cbn [rbind].
    rewrite (IH _ _ _ Em). reflexivity.
Qed.

(** X10: the noise reaches the reconstructions and the logits only.  In any
    mode, two forward passes of one ensemble on one input that both return,
    from any two states of the random generator, return the same stacked
    means and the same stacked log-variances. *)
Theorem ABS_forward_latents_noise_free :
  forall (self : ABS) (x : Tensor) (w1 w1' w2 w2' : World)
         (logits1 recs1 mus1 logvars1 logits2 recs2 mus2 logvars2 : Tensor),
    ABS_forward self x w1 = (Ok (logits1, recs1, mus1, logvars1), w1') ->
    ABS_forward self x w2 = (Ok (logits2, recs2, mus2, logvars2), w2') ->
    mus1 = mus2 /\ logvars1 = logvars2.
Proof.
  intros self x w1 w1' w2 w2' logits1 recs1 mus1 logvars1 logits2 recs2 mus2 logvars2 H1 H2.
  destruct (@ABS_forward_inv _ _ _ _ _ _ _ _ H1) as [o1 [Hr1 [_ Hs1]]].
  destruct (@ABS_forward_inv _ _ _ _ _ _ _ _ H2) as [o2 [Hr2 [_ Hs2]]].
  destruct (@score_inv _ _ _ _ _ _ _ Hs1) as [_ [_ [_ [_ [_ [Hm1 [Hv1 _]]]]]]].
  destruct (@score_inv _ _ _ _ _ _ _ Hs2) as [_ [_ [_ [_ [_ [Hm2 [Hv2 _]]]]]]].
  unfold run_base_models in Hr1, Hr2.
  pose proof (@run_base_models_latents _ _ _ _ _ Hr1) as L1.
  rewrite (@run_base_models_latents _ _ _ _ _ Hr2) in L1.
  injection L1 as L.
  assert (Lm : map (fun o : Tensor * Tensor * Tensor => snd (fst o)) o1
               = map (fun o : Tensor * Tensor * Tensor => snd (fst o)) o2).
  { apply (f_equal (map fst)) in L. rewrite !map_map in L. cbn [fst] in L. symmetry. exact L. }
  assert (Lv : map (fun o : Tensor * Tensor * Tensor => snd o) o1
               = map (fun o : Tensor * Tensor * Tensor => snd o) o2).
  { apply (f_equal (map snd)) in L. rewrite !map_map in L. cbn [snd] in L. symmetry. exact L. }
  rewrite Lm in Hm1. rewrite Lv in Hv1. split; congruence.
Qed.

End Architecture.

(** * A concrete instance

    A small instance of the parameters: a counter for the state of the random
    generator, layers that pass their input on, a squared-error loss per
    sample.  The theorems above are run on it. *)

Definition toy_world : World nat := mkWorld 0 0.

Example transpose01_2x3 :
  transpose01 (mkTensor [2; 3] [1; 2; 3; 4; 5; 6]%R)
  = Ok (mkTensor [3; 2] [1; 4; 2; 5; 3; 6]%R).
Proof. reflexivity. Qed.

Example transpose01_rank1 :
  transpose01 (mkTensor [2] [1; 2]%R) = Raise (IndexError "Dimension out of range").
Proof. reflexivity. Qed.

Example stack_two_rows :
  stack [mkTensor [2] [1; 2]%R; mkTensor [2] [3; 4]%R]
  = Ok (mkTensor [2; 2] [1; 2; 3; 4]%R).
Proof. reflexivity. Qed.

(** Tensors of different ranks do not stack: the error is [torch.stack]'s, and
    the statements after it are not reached. *)
Example stack_mixed_ranks :
  stack [mkTensor [2] [1; 2]%R; mkTensor [1; 2] [3; 4]%R]
  = Raise (RuntimeError "stack expects each tensor to be equal size").
Proof. reflexivity. Qed.

Example item_row_major : item (mkTensor [2; 3] [1; 2; 3; 4; 5; 6]%R) [1; 2] = Some 6%R.
Proof. reflexivity. Qed.

Example add__broadcasts_a_row :
  add_ (mkTensor [2; 3] [1; 2; 3; 4; 5; 6]%R) (mkTensor [3] [10; 20; 30]%R)
  = Ok (mkTensor [2; 3] [1 + 10; 2 + 20; 3 + 30; 4 + 10; 5 + 20; 6 + 30]%R).
Proof. reflexivity. Qed.

Example add__refuses_to_grow :
  add_ (mkTensor [3] [10; 20; 30]%R) (mkTensor [2; 3] [1; 2; 3; 4; 5; 6]%R)
  = Raise (RuntimeError "output with shape doesn't match the broadcast shape").
Proof. reflexivity. Qed.

Example mul_broadcasts_both :
  mul (mkTensor [2; 1] [1; 2]%R) (mkTensor [1; 3] [10; 20; 30]%R)
  = Ok (mkTensor [2; 3] [1 * 10; 1 * 20; 1 * 30; 2 * 10; 2 * 20; 2 * 30]%R).
Proof. reflexivity. Qed.

(** With no class the default factory is never called and the constructor returns. *)
Example ABS_no_class :
  ABS_new toy_init 0 1%R None None None None toy_world
  = (Ok (mkABS 1%R "vae" [] [] []), toy_world).
Proof. reflexivity. Qed.

(** The forward pass of an ensemble without classes stops at the unpacking. *)
Example ABS_forward_no_class :
  ABS_forward toy_randn toy_conv2d toy_convT toy_bn toy_loss (mkABS 1%R "vae" [] [] [])
    toy_x toy_world
  = (Raise (ValueError "not enough values to unpack (expected 3, got 0)"), toy_world).
Proof. reflexivity. Qed.

(** Three class-VAEs with one latent channel, as the constructor leaves them. *)
Definition toy_abs : ABS :=
  match fst (ABS_new toy_init 3 1%R None None
               (Some (fun _ : list PyVal => VAE_init toy_init 1 false)) None toy_world) with
  | Ok self => self
  | Raise _ => mkABS 0%R "" [] [] []
  end.

Definition toy_forward (self : ABS) (x : Tensor) : M nat (Tensor * Tensor * Tensor * Tensor) :=
  ABS_forward toy_randn toy_conv2d toy_convT toy_bn toy_loss self x.

Lemma toy_loss_shape :
  forall (self : ABS) (x : Tensor) (b : nat) (rest : list nat) o t,
    shape x = b :: rest -> class_loss toy_loss self x o = Ok t -> shape t = [b] /\ wf t.
Proof.
  intros self x b rest [[rec mu] logvar] t Hx H.
  unfold class_loss, toy_loss, detach in H. rewrite Hx in H. injection H as <-.
  split; [reflexivity|]. unfold wf, numel, chunks. simpl.
  rewrite !length_map, length_seq. lia.
Qed.

Lemma toy_abs_forward_ok : is_ok (fst (toy_forward toy_abs toy_x toy_world)) = true.
Proof. lazy. reflexivity. Qed.

Lemma toy_abs_n_classes : length (base_models toy_abs) = 3.
Proof. lazy. reflexivity. Qed.

(** The first class-VAE of the instance. *)
Definition toy_vae : option VAE := hd_error (base_models toy_abs).

Lemma toy_vae_training : option_map training toy_vae = Some true.
Proof. lazy. reflexivity. Qed.

#[local] Opaque toy_abs.

Lemma toy_randn_sized : randn_sized toy_randn.
Proof. intros n g. unfold toy_randn. simpl. now rewrite length_map, length_seq. Qed.

(** C1 on the instance: three classes, a batch of two. *)
Lemma ABS_forward_shapes_witness :
  match fst (toy_forward toy_abs toy_x toy_world) with
  | Ok (logits, recs, mus, logvars) =>
      shape logits = [2; 3]
      /\ leading recs = Some 3 /\ leading mus = Some 3 /\ leading logvars = Some 3
  | Raise _ => False
  end.
Proof.
  pose proof toy_abs_forward_ok as Hok.
  destruct (toy_forward toy_abs toy_x toy_world)
    as [[[[[logits recs] mus] logvars]|e] w'] eqn:E; [|discriminate Hok].
  cbn [fst].
  destruct (@ABS_forward_inv nat toy_randn toy_conv2d toy_convT toy_bn toy_loss
              toy_abs toy_x toy_world w' logits recs mus logvars E)
    as [outputs [Hrun [_ Hscore]]].
  destruct (@score_inv toy_loss toy_abs toy_x outputs logits recs mus logvars Hscore)
    as [losses [_ [_ [_ [_ [_ [_ [Hl _]]]]]]]].
  assert (HB : Forall (fun t => shape t = [2]) losses).
  { pose proof (@rmapM_Forall2 _ _ _ _ _ Hl) as HF. clear - HF.
    induction HF as [|o t os ts Hot HF IH]; constructor; [|exact IH].
    exact (proj1 (toy_loss_shape toy_abs toy_x o eq_refl Hot)). }
  exact (proj2 (ABS_forward_shapes toy_randn toy_init toy_conv2d toy_convT toy_bn toy_loss 3 2)
           toy_abs toy_x toy_world w' outputs losses logits recs mus logvars
           toy_abs_n_classes eq_refl Hrun Hl HB E).
Defined.

(** C2 on the instance: the logit of sample 1 for class 2. *)
Lemma ABS_forward_logits_witness :
  match fst (toy_forward toy_abs toy_x toy_world) with
  | Ok (logits, recs, mus, logvars) =>
      exists (rec mu logvar loss : Tensor) (v : R),
        toy_loss toy_x rec mu logvar (beta toy_abs) (loss_f toy_abs) = Ok loss
        /\ item loss [1] = Some v
        /\ item logits [1; 2] = Some (- v)%R
  | Raise _ => False
  end.
Proof.
  pose proof toy_abs_forward_ok as Hok.
  destruct (toy_forward toy_abs toy_x toy_world)
    as [[[[[logits recs] mus] logvars]|e] w'] eqn:E; [|discriminate Hok].
  cbn [fst].
  destruct (ABS_forward_logits toy_randn toy_conv2d toy_convT toy_bn toy_loss
              toy_abs toy_x toy_world
              (fun o t H => proj2 (toy_loss_shape toy_abs toy_x o eq_refl H)) E)
    as [outputs [losses [stacked [t [B [Hrun [Hl [Hst [Hs [_ [_ [_ Hall]]]]]]]]]]]].
  assert (HB : B = 2).
  { assert (Hne : outputs <> []).
    { pose proof (@mapM_length _ _ _ _ _ _ _ _ Hrun) as Hlen.
      rewrite toy_abs_n_classes in Hlen. intros ->. discriminate Hlen. }
    pose proof (@stacked_losses_shape toy_loss toy_abs toy_x outputs losses stacked 2 Hne Hl
                  (fun o t H => proj1 (toy_loss_shape toy_abs toy_x o eq_refl H)) Hst) as H.
    rewrite Hs in H. pose proof (f_equal (fun s => nth 1 s 0) H) as HB'.
    cbn [nth] in HB'. exact HB'. }
  destruct (Hall 2 1) as [vae [wk [wk' [rec [mu [logvar [loss [v [_ [_ [_ [H1 [H2 H3]]]]]]]]]]]]].
  - rewrite toy_abs_n_classes. lia.
  - lia.
  - exists rec, mu, logvar, loss, v. repeat split; assumption.
Defined.

(** C3 on the instance: the first class-VAE, put in evaluation mode, from two
    states of the world. *)
Lemma VAE_forward_eval_deterministic_witness :
  match toy_vae with
  | Some v =>
      training (VAE_eval v) = false
      /\ fst (VAE_forward toy_randn toy_conv2d toy_convT toy_bn (VAE_eval v) toy_x toy_world)
         = fst (VAE_forward toy_randn toy_conv2d toy_convT toy_bn (VAE_eval v) toy_x
                  (mkWorld 7 11))
  | None => False
  end.
Proof.
  pose proof toy_vae_training as Ht.
  destruct toy_vae as [v|]; [|discriminate Ht].
  split; [reflexivity|].
  apply (VAE_forward_eval_deterministic toy_randn toy_conv2d toy_convT toy_bn
           (VAE_eval v) toy_x eq_refl).
Defined.

(** C4 on the instance: the first class-VAE in training mode. *)
Lemma reparameterize_training_witness :
  match toy_vae with
  | Some v =>
      training v = true
      /\ exists z : Tensor,
           reparameterize toy_randn v toy_mu toy_logvar toy_world = (Ok z, mkWorld 0 2)
           /\ shape z = [2]
           /\ forall i : nat,
                i < 2 ->
                exists e l m : R,
                  nth_error [INR 0; INR 1] i = Some e
                  /\ nth_error (data toy_logvar) i = Some l
                  /\ nth_error (data toy_mu) i = Some m
                  /\ nth_error (data z) i = Some (e * exp (0.5 * l) + m)%R
  | None => False
  end.
Proof.
  pose proof toy_vae_training as Ht.
  destruct toy_vae as [v|]; [|discriminate Ht].
  assert (Htr : training v = true) by (simpl in Ht; congruence).
  split; [exact Htr|].
  destruct (reparameterize_training toy_randn v toy_mu toy_logvar toy_world Htr)
    as [_ [_ [_ H]]].
  exact (H toy_randn_sized eq_refl eq_refl eq_refl).
Defined.

(** C5 on the instance: the kind of the specification's test. *)
Lemma get_base_model_kinds_witness :
  get_base_model toy_init (fun _ : Args => ret (RNG := nat) tt)
    (mkArgs "unknown_model" 8) toy_world
  = (Raise (NotImplementedError
              "model unknown_model is not implemented try OneLipAE or VAE"), toy_world).
Proof.
  destruct (get_base_model_kinds toy_init (fun _ : Args => ret (RNG := nat) tt)
              (mkArgs "unknown_model" 8) toy_world) as [H _].
  destruct H as [H _]; [discriminate|discriminate|exact H].
Defined.

(** The names the message suggests are not kinds the function takes. *)
Lemma get_base_model_suggested_names :
  forall kind : string,
    kind = "OneLipAE"%string \/ kind = "VAE"%string ->
    get_base_model toy_init (fun _ : Args => ret (RNG := nat) tt) (mkArgs kind 8) toy_world
    = (Raise (NotImplementedError
                ("model " ++ kind ++ " is not implemented try OneLipAE or VAE")), toy_world).
Proof.
  intros kind [-> | ->]; reflexivity.
Qed.


(** C10 on the instance: one class, every optional argument left out. *)
Lemma ABS_default_factory_fails_witness :
  ABS_new toy_init 1 1%R None None None None toy_world
  = (Raise (TypeError "__init__() missing 1 required positional argument: 'n_latents'"),
     toy_world).
Proof.
  apply (@ABS_default_factory_fails nat toy_init 1 1%R None None None toy_world). lia.
Defined.

(** C8 on the instance: the losses of the three classes have shape [(2)]. *)
Lemma rank2_assertion_witness :
  exists (stacked logits recs mus logvars : Tensor) (w' : World nat),
    dim stacked = 2
    /\ shape stacked = [length (base_models toy_abs); 2]
    /\ toy_forward toy_abs toy_x toy_world = (Ok (logits, recs, mus, logvars), w').
Proof.
  assert (H1 : is_ok (fst (run_base_models toy_randn toy_conv2d toy_convT toy_bn
                             toy_abs toy_x toy_world)) = true) by (lazy; reflexivity).
  destruct (run_base_models toy_randn toy_conv2d toy_convT toy_bn toy_abs toy_x toy_world)
    as [[outputs|e] w'] eqn:Erun; [|discriminate H1].
  assert (Hlen : length outputs = 3).
  { rewrite <- toy_abs_n_classes. unfold run_base_models in Erun.
    exact (@mapM_length _ _ _ _ _ _ _ _ Erun). }
  pose proof toy_abs_forward_ok as Hok. unfold toy_forward in Hok.
  rewrite ABS_forward_staged, Erun in Hok. cbn [fst rbind] in Hok.
  destruct (score toy_loss toy_abs toy_x outputs)
    as [[[[logits recs] mus] logvars]|e] eqn:Es; [|discriminate Hok].
  destruct (@score_inv _ _ _ _ _ _ _ _ Es)
    as [losses [stacked [t [_ [Hr [Hm [Hv [Hl [_ _]]]]]]]]].
  destruct (@rank2_assertion nat toy_randn toy_conv2d toy_convT toy_bn toy_loss
              toy_abs toy_x toy_world w' outputs recs mus logvars losses
              Erun Hr Hm Hv Hl) as [Ha _].
  destruct (Ha 2) as [st [lg [_ [Hshape [Hdim [_ Hf]]]]]].
  - apply Forall_forall. intros u Hu.
    destruct (In_nth_error _ _ Hu) as [k Hk].
    pose proof (@rmapM_Forall2 _ _ _ _ _ Hl) as HF.
    assert (Hko : k < length outputs).
    { rewrite (@Forall2_length_eq _ _ _ _ _ HF). apply nth_error_Some. congruence. }
    destruct (nth_error outputs k) as [o|] eqn:Eo; [|apply nth_error_None in Eo; lia].
    destruct (@Forall2_nth_error_l _ _ _ _ _ _ _ HF Eo) as [u' [Hu' Hou]].
    rewrite Hk in Hu'. injection Hu' as <-.
    exact (proj1 (toy_loss_shape toy_abs toy_x o eq_refl Hou)).
  - exists st, lg, recs, mus, logvars, w'. repeat split; assumption.
Defined.

(** * The further properties on the instance *)

(** [nn.Module.eval()] on the ensemble. *)
Definition ABS_eval (self : ABS) : ABS :=
  mkABS (beta self) (loss_f self) (map VAE_eval (base_models self))
    (encoder_parameters self) (decoder_parameters self).

Lemma ABS_eval_all_eval :
  forall self : ABS, Forall (fun v => training v = false) (base_models (ABS_eval self)).
Proof.
  intro self. cbn [ABS_eval base_models]. apply Forall_forall. intros v Hv.
  apply in_map_iff in Hv. destruct Hv as [u [<- _]]. reflexivity.
Qed.

(** X1 on the instance: the ensemble in evaluation mode, from two worlds. *)
Lemma ABS_forward_eval_deterministic_witness :
  fst (toy_forward (ABS_eval toy_abs) toy_x toy_world)
  = fst (toy_forward (ABS_eval toy_abs) toy_x (mkWorld 7 11)).
Proof.
  exact (proj2 (@ABS_forward_eval_deterministic nat toy_randn toy_conv2d toy_convT toy_bn
                  toy_loss (ABS_eval toy_abs) toy_x (ABS_eval_all_eval toy_abs))
           toy_world (mkWorld 7 11)).
Defined.

Lemma toy_loss_entry :
  forall (o : Tensor * Tensor * Tensor) (t : Tensor) (b : nat),
    class_loss toy_loss toy_abs toy_x o = Ok t -> b < 2 -> exists v : R, item t [b] = Some v.
Proof.
  intros o t b H Hb. destruct (toy_loss_shape toy_abs toy_x o eq_refl H) as [Hs Hwf].
  rewrite (@item_rank1 t 2 b Hs Hb).
  unfold wf, numel in Hwf. rewrite Hs in Hwf. simpl in Hwf.
  destruct (nth_error (data t) b) as [v|] eqn:E; [now exists v|].
  apply nth_error_None in E. lia.
Qed.

(** X2 on the instance: sample 0, classes 1 and 2. *)
Lemma logits_reverse_losses_witness :
  match fst (toy_forward toy_abs toy_x toy_world) with
  | Ok (logits, recs, mus, logvars) =>
      exists v1 v2 g1 g2 : R,
        item logits [0; 1] = Some g1 /\ item logits [0; 2] = Some g2
        /\ (g2 < g1 <-> v1 < v2)%R
  | Raise _ => False
  end.
Proof.
  pose proof toy_abs_forward_ok as Hok.
  destruct (toy_forward toy_abs toy_x toy_world)
    as [[[[[logits recs] mus] logvars]|e] w'] eqn:E; [|discriminate Hok].
  cbn [fst].
  destruct (@logits_reverse_losses nat toy_randn toy_conv2d toy_convT toy_bn toy_loss
              toy_abs toy_x toy_world w' logits recs mus logvars
              (fun o t H => proj2 (toy_loss_shape toy_abs toy_x o eq_refl H)) E)
    as [outputs [losses [Hrun [Hl Hall]]]].
  pose proof (@rmapM_Forall2 _ _ _ _ _ Hl) as HF.
  assert (Hlen : length losses = 3).
  { rewrite <- (@Forall2_length_eq _ _ _ _ _ HF), <- toy_abs_n_classes.
    exact (@mapM_length _ _ _ _ _ _ _ _ Hrun). }
  assert (Hget : forall k, k < 3 -> exists t v, nth_error losses k = Some t /\ item t [0] = Some v).
  { intros k Hk.
    destruct (nth_error losses k) as [t|] eqn:Ek; [|apply nth_error_None in Ek; lia].
    assert (Hko : k < length outputs) by (rewrite (@Forall2_length_eq _ _ _ _ _ HF); lia).
    destruct (nth_error outputs k) as [o|] eqn:Eo; [|apply nth_error_None in Eo; lia].
    destruct (@Forall2_nth_error_l _ _ _ _ _ _ _ HF Eo) as [t' [Ht' Hot]].
    rewrite Ek in Ht'. injection Ht' as <-.
    destruct (@toy_loss_entry o t 0 Hot) as [v Hv]; [exact Nat.lt_0_2|].
    exists t, v. split; [reflexivity|exact Hv]. }
  destruct (Hget 1) as [t1 [v1 [H1 Hv1]]]; [lia|].
  destruct (Hget 2) as [t2 [v2 [H2 Hv2]]]; [lia|].
  destruct (Hall 0 1 2 t1 t2 v1 v2 H1 H2 Hv1 Hv2) as [g1 [g2 [Hg1 [Hg2 [Hlt _]]]]].
  exists v1, v2, g1, g2. split; [exact Hg1|]. split; [exact Hg2|]. exact Hlt.
Defined.

(** X3 on the instance: an ensemble without base models. *)
Lemma ABS_without_classes_witness :
  toy_forward (mkABS 1%R "vae" [] [] []) toy_x toy_world
  = (Raise (ValueError "not enough values to unpack (expected 3, got 0)"), toy_world).
Proof.
  exact (proj2 (@ABS_without_classes nat toy_randn toy_init toy_conv2d toy_convT toy_bn
                  toy_loss) (mkABS 1%R "vae" [] [] []) toy_x toy_world eq_refl).
Defined.

Definition toy_mu_square : Tensor := mkTensor [2; 2] [1%R; 2%R; 3%R; 4%R].

(** X4 on the instance: a [mu] of shape [(2, 2)] against a [logvar] of shape [(2)]. *)
Lemma reparameterize_training_shape_witness :
  match toy_vae with
  | Some v =>
      fst (reparameterize toy_randn v toy_mu_square toy_logvar toy_world)
      = Raise (RuntimeError "output with shape doesn't match the broadcast shape")
  | None => False
  end.
Proof.
  pose proof toy_vae_training as Ht.
  destruct toy_vae as [v|]; [|discriminate Ht].
  assert (Htr : training v = true) by (simpl in Ht; congruence).
  apply (proj2 (@reparameterize_training_shape nat toy_randn v toy_mu_square toy_logvar
                  toy_world Htr toy_randn_sized eq_refl)).
  simpl. lia.
Defined.

(** X7 on the instance: the kind ['vae'] with eight latent channels. *)
Lemma get_base_model_vae_is_grey_witness :
  exists (v : VAE) (w' : World nat),
    get_base_model toy_init (fun _ : Args => ret (RNG := nat) tt) (mkArgs "vae" 8) toy_world
    = (Ok (IsVAE unit v), w')
    /\ n_latents v = 8 /\ training v = true /\ VAE_arch v = grey_arch 8 /\ next_id w' = 30.
Proof.
  destruct (@get_base_model_vae_is_grey nat toy_init unit (fun _ : Args => ret (RNG := nat) tt)
              (mkArgs "vae" 8) toy_world eq_refl)
    as [v [w' [H [Hn [Ht [Ha [_ Hid]]]]]]].
  exists v, w'. repeat split; assumption.
Defined.

(** A factory that builds one VAE and fails from then on. *)
Definition flaky_factory : Callable nat :=
  fun _ w =>
    if next_id w =? 0
    then VAE_init toy_init 1 false w
    else (Raise (RuntimeError "CUDA out of memory"), w).

(** X8 on the instance: three classes from a factory that fails at the second. *)
Lemma ABS_init_factory_error_witness :
  fst (ABS_new toy_init 3 1%R None None (Some flaky_factory) None toy_world)
  = Raise (RuntimeError "CUDA out of memory").
Proof.
  destruct (VAE_init_fresh toy_init 1 false toy_world) as [v [w1 [E [_ [_ Hn]]]]].
  assert (H1 : mapM (fun _ : nat => flaky_factory []) (seq 0 1) toy_world = (Ok [v], w1)).
  { cbn [seq mapM]. unfold bind, flaky_factory. cbn [toy_world next_id Nat.eqb].
    fold toy_world. rewrite E. reflexivity. }
  assert (H2 : flaky_factory [] w1 = (Raise (RuntimeError "CUDA out of memory"), w1)).
  { unfold flaky_factory. rewrite Hn. reflexivity. }
  rewrite (@ABS_init_factory_error nat toy_init 3 1 1%R None None flaky_factory None
             [v] (RuntimeError "CUDA out of memory") toy_world w1 w1
             (le_S 2 2 (le_n 2)) H1 H2).
  reflexivity.
Defined.

(** The ensemble of the instance returns from another world too. *)
Lemma toy_abs_forward_ok_elsewhere :
  is_ok (fst (toy_forward toy_abs toy_x (mkWorld 7 11))) = true.
Proof. with_strategy transparent [toy_abs] (lazy; reflexivity). Qed.

(** X10 on the instance: the ensemble in training mode, from two worlds. *)
Lemma ABS_forward_latents_noise_free_witness :
  match fst (toy_forward toy_abs toy_x toy_world),
        fst (toy_forward toy_abs toy_x (mkWorld 7 11)) with
  | Ok (_, _, mus1, logvars1), Ok (_, _, mus2, logvars2) =>
      mus1 = mus2 /\ logvars1 = logvars2
  | _, _ => False
  end.
Proof.
  pose proof toy_abs_forward_ok as Hok1.
  pose proof toy_abs_forward_ok_elsewhere as Hok2.
  destruct (toy_forward toy_abs toy_x toy_world)
    as [[[[[logits1 recs1] mus1] logvars1]|e] w1'] eqn:E1; [|discriminate Hok1].
  destruct (toy_forward toy_abs toy_x (mkWorld 7 11))
    as [[[[[logits2 recs2] mus2] logvars2]|e] w2'] eqn:E2; [|discriminate Hok2].
  cbn [fst].
  exact (@ABS_forward_latents_noise_free nat toy_randn toy_conv2d toy_convT toy_bn toy_loss
           toy_abs toy_x toy_world w1' (mkWorld 7 11) w2'
           logits1 recs1 mus1 logvars1 logits2 recs2 mus2 logvars2 E1 E2).
Defined.

(** * Image sizes through the networks *)

From Stdlib Require Import ZArith Zify ZifyNat.

Ltac div_lia := zify; Z.to_euclidean_division_equations; lia.

Ltac shape_steps :=
  repeat (cbn [specs_shape spec_shape arch_trunk arch_mu arch_logvar arch_decoder
                 grey_arch color_arch Nat.eqb andb];
          try rewrite Nat.eqb_refl;
          match goal with
          | |- context [?a <=? ?b] =>
              replace (a <=? b) with true
                by (symmetry; apply Nat.leb_le; unfold conv_size, convT_size; div_lia)
          end);
  cbn [specs_shape spec_shape arch_trunk arch_mu arch_logvar arch_decoder
         grey_arch color_arch Nat.eqb andb].

Ltac size_eq := unfold conv_size, convT_size; div_lia.

Lemma grey_arch_shapes :
  forall n h w : nat,
    28 <= h -> 28 <= w ->
    exists j' : nat * nat * nat,
      specs_shape (arch_trunk (grey_arch n)) (1, h, w) = Some j'
      /\ spec_shape (arch_mu (grey_arch n)) j' = Some (n, (h - 24) / 4, (w - 24) / 4)
      /\ spec_shape (arch_logvar (grey_arch n)) j' = Some (n, (h - 24) / 4, (w - 24) / 4)
      /\ specs_shape (arch_decoder (grey_arch n)) (n, (h - 24) / 4, (w - 24) / 4)
         = Some (1, h - h mod 4, w - w mod 4).
Proof.
  intros n h w Hh Hw.
  exists (64, (h - 24) / 4 + 4, (w - 24) / 4 + 4).
  split; [|split; [|split]].
  - shape_steps. f_equal. rewrite !pair_equal_spec. repeat split; size_eq.
  - shape_steps. f_equal. rewrite !pair_equal_spec. repeat split; size_eq.
  - shape_steps. f_equal. rewrite !pair_equal_spec. repeat split; size_eq.
  - shape_steps. f_equal. rewrite !pair_equal_spec. repeat split; size_eq.
Qed.

Lemma color_arch_shapes :
  forall n h w : nat,
    32 <= h -> 32 <= w ->
    exists j' : nat * nat * nat,
      specs_shape (arch_trunk (color_arch n)) (3, h, w) = Some j'
      /\ spec_shape (arch_mu (color_arch n)) j' = Some (n, (h - 28) / 4, (w - 28) / 4)
      /\ spec_shape (arch_logvar (color_arch n)) j' = Some (n, (h - 28) / 4, (w - 28) / 4)
      /\ specs_shape (arch_decoder (color_arch n)) (n, (h - 28) / 4, (w - 28) / 4)
         = Some (3, h - h mod 4, w - w mod 4).
Proof.
  intros n h w Hh Hw.
  exists (64, (h - 28) / 4 + 4, (w - 28) / 4 + 4).
  split; [|split; [|split]].
  - shape_steps. f_equal. rewrite !pair_equal_spec. repeat split; size_eq.
  - shape_steps. f_equal. rewrite !pair_equal_spec. repeat split; size_eq.
  - shape_steps. f_equal. rewrite !pair_equal_spec. repeat split; size_eq.
  - shape_steps. f_equal. rewrite !pair_equal_spec. repeat split; size_eq.
Qed.

(** Channels of the images, the least side the layers accept, the side of
    the latent map and the layers, by colour flag. *)
Definition image_channels (color : bool) : nat := if color then 3 else 1.
Definition least_side (color : bool) : nat := if color then 32 else 28.
Definition latent_side (color : bool) (h : nat) : nat :=
  (h - (if color then 28 else 24)) / 4.
Definition arch_for (n : nat) (color : bool) : Arch :=
  if color then color_arch n else grey_arch n.

Lemma arch_for_shapes :
  forall (n : nat) (color : bool) (h w : nat),
    least_side color <= h -> least_side color <= w ->
    exists j' : nat * nat * nat,
      specs_shape (arch_trunk (arch_for n color)) (image_channels color, h, w) = Some j'
      /\ spec_shape (arch_mu (arch_for n color)) j'
         = Some (n, latent_side color h, latent_side color w)
      /\ spec_shape (arch_logvar (arch_for n color)) j'
         = Some (n, latent_side color h, latent_side color w)
      /\ specs_shape (arch_decoder (arch_for n color))
           (n, latent_side color h, latent_side color w)
         = Some (image_channels color, h - h mod 4, w - w mod 4).
Proof.
  intros n [|] h w Hh Hw.
  - exact (color_arch_shapes n Hh Hw).
  - exact (grey_arch_shapes n Hh Hw).
Qed.

Lemma round_down_same : forall h : nat, h - h mod 4 = h <-> h mod 4 = 0.
Proof. intro h. split; intro H; div_lia. Qed.

Section Shapes.

Variable RNG : Type.
Variable randn : nat -> RNG -> list R * RNG.
Variable init_uniform : nat -> RNG -> list R * RNG.
Variable conv2d : Conv2d -> Tensor -> result Tensor.
Variable conv_transpose2d : ConvTranspose2d -> Tensor -> result Tensor.
Variable batch_norm2d : BatchNorm2d -> Tensor -> result Tensor.
Variable samplewise_loss_function :
  Tensor -> Tensor -> Tensor -> Tensor -> R -> string -> result Tensor.

(** A VAE with the layers that [VAE(n, color)] lays down, whatever its
    weights and its mode. *)
Definition built_like (n : nat) (color : bool) (v : VAE) : Prop :=
  exists (w0 w1 : World RNG) (v0 : VAE),
    VAE_init init_uniform n color w0 = (Ok v0, w1) /\ VAE_arch v = VAE_arch v0.

Lemma built_like_arch :
  forall (n : nat) (color : bool) (v : VAE),
    built_like n color v -> VAE_arch v = arch_for n color.
Proof.
  intros n color v [w0 [w1 [v0 [E H]]]]. rewrite H.
  exact (@VAE_init_arch RNG init_uniform n color w0 w1 v0 E).
Qed.

Lemma VAE_forward_shapes_core :
  layers_respect_shapes conv2d conv_transpose2d batch_norm2d ->
  forall (n : nat) (color : bool) (v : VAE) (x rec mu logvar : Tensor) (b h w : nat)
         (wd wd' : World RNG),
    built_like n color v ->
    shape x = [b; image_channels color; h; w] ->
    least_side color <= h -> least_side color <= w ->
    VAE_forward randn conv2d conv_transpose2d batch_norm2d v x wd = (Ok (rec, mu, logvar), wd') ->
    shape mu = [b; n; latent_side color h; latent_side color w]
    /\ shape logvar = [b; n; latent_side color h; latent_side color w]
    /\ shape rec = [b; image_channels color; h - h mod 4; w - w mod 4].
Proof.
  intros HL n color v x rec mu logvar b h w wd wd' Hv Hx Hh Hw H.
  destruct (arch_for_shapes n color Hh Hw) as [j' [Ht [Hm [Hl Hd]]]].
  rewrite <- (built_like_arch Hv) in Ht, Hm, Hl, Hd.
  exact (@VAE_forward_shape_inferred RNG randn conv2d conv_transpose2d batch_norm2d HL
           v x rec mu logvar b (image_channels color, h, w) j'
           (n, latent_side color h, latent_side color w)
           (image_channels color, h - h mod 4, w - w mod 4) wd wd' Hx Ht Hm Hl Hd H).
Qed.

(** X11: for a VAE with the layers of [VAE(n, color)] and a batch of images
    with 1 channel and sides of at least 28 (grey), or 3 channels and sides of
    at least 32 (colour), whenever the forward pass returns, [mu] and [logvar]
    have shape [(b, n, (h - 24) / 4, (w - 24) / 4)] (from 28 for colour), and
    the reconstruction has the channels of the input and its sides rounded
    down to a multiple of 4: it has the shape of the input exactly when both
    sides are multiples of 4. *)
Theorem VAE_forward_image_shapes :
  layers_respect_shapes conv2d conv_transpose2d batch_norm2d ->
  forall (n : nat) (color : bool) (v : VAE) (x rec mu logvar : Tensor) (b h w : nat)
         (wd wd' : World RNG),
    built_like n color v ->
    shape x = [b; (if color then 3 else 1); h; w] ->
    (if color then 32 else 28) <= h -> (if color then 32 else 28) <= w ->
    VAE_forward randn conv2d conv_transpose2d batch_norm2d v x wd = (Ok (rec, mu, logvar), wd') ->
    shape mu = [b; n; (h - (if color then 28 else 24)) / 4; (w - (if color then 28 else 24)) / 4]
    /\ shape logvar = shape mu
    /\ shape rec = [b; (if color then 3 else 1); h - h mod 4; w - w mod 4]
    /\ (shape rec = shape x <-> h mod 4 = 0 /\ w mod 4 = 0).
Proof.
  intros HL n color v x rec mu logvar b h w wd wd' Hv Hx Hh Hw H.
  destruct (@VAE_forward_shapes_core HL n color v x rec mu logvar b h w wd wd'
              Hv Hx Hh Hw H) as [Hm [Hl Hr]].
  unfold latent_side, image_channels in *.
  split; [exact Hm|]. split; [now rewrite Hm|]. split; [exact Hr|].
  rewrite Hr, Hx. split.
  - intro E. injection E as E1 E2. split; now apply round_down_same.
  - intros [E1 E2]. apply round_down_same in E1, E2. now rewrite E1, E2.
Qed.


Lemma outputs_from_models :
  forall (self : ABS) (x : Tensor) (w w' : World RNG)
         (outputs : list (Tensor * Tensor * Tensor)) (o : Tensor * Tensor * Tensor),
    run_base_models randn conv2d conv_transpose2d batch_norm2d self x w = (Ok outputs, w') ->
    In o outputs ->
    exists (v : VAE) (wk wk' : World RNG),
      In v (base_models self)
      /\ VAE_forward randn conv2d conv_transpose2d batch_norm2d v x wk = (Ok o, wk').
Proof.
  intros self x w w' outputs o Hrun Ho. unfold run_base_models in Hrun.
  destruct (In_nth_error _ _ Ho) as [k Hk].
  pose proof (@mapM_length _ _ _ _ _ _ _ _ Hrun) as Hlen.
  assert (Hkl : k < length (base_models self)).
  { rewrite <- Hlen. apply nth_error_Some. congruence. }
  destruct (nth_error (base_models self) k) as [v|] eqn:Ev;
    [|apply nth_error_None in Ev; exfalso; exact (Nat.lt_irrefl _ (Nat.lt_le_trans _ _ _ Hkl Ev))].
  destruct (@mapM_nth_error _ _ _ _ _ _ _ _ _ _ Hrun Ev) as [o' [wk [wk' [Ho' Hf]]]].
  rewrite Hk in Ho'. injection Ho' as <-.
  exists v, wk, wk'. split; [eapply nth_error_In; eauto|exact Hf].
Qed.

Lemma stack_of_shape :
  forall (ts : list Tensor) (st : Tensor) (s : list nat),
    stack ts = Ok st -> Forall (fun t => shape t = s) ts -> shape st = length ts :: s.
Proof.
  intros ts st s Hst Hs. destruct (@stack_inv _ _ Hst) as [s' [Hne [Hs' [Hshape _]]]].
  rewrite Hshape. f_equal. destruct ts as [|t ts]; [congruence|].
  inversion Hs; inversion Hs'; subst. congruence.
Qed.

(** X12: for an ensemble of [K] VAEs with the layers of [VAE(n, color)] and a
    batch of [b] images of sides at least 28 (grey) or 32 (colour), whenever the
    forward pass returns, the stacked reconstructions have shape
    [(K, b, channels, h - h mod 4, w - w mod 4)] and the stacked means and
    log-variances have shape [(K, b, n, latent side, latent side)]. *)
Theorem ABS_forward_image_shapes :
  layers_respect_shapes conv2d conv_transpose2d batch_norm2d ->
  forall (n : nat) (color : bool) (self : ABS) (x logits recs mus logvars : Tensor)
         (b h w : nat) (wd wd' : World RNG),
    Forall (built_like n color) (base_models self) ->
    shape x = [b; (if color then 3 else 1); h; w] ->
    (if color then 32 else 28) <= h -> (if color then 32 else 28) <= w ->
    ABS_forward randn conv2d conv_transpose2d batch_norm2d samplewise_loss_function self x wd
    = (Ok (logits, recs, mus, logvars), wd') ->
    shape recs
    = [length (base_models self); b; (if color then 3 else 1); h - h mod 4; w - w mod 4]
    /\ shape mus
       = [length (base_models self); b; n;
          (h - (if color then 28 else 24)) / 4; (w - (if color then 28 else 24)) / 4]
    /\ shape logvars = shape mus.
Proof.
  intros HL n color self x logits recs mus logvars b h w wd wd' Hall Hx Hh Hw H.
  destruct (@ABS_forward_inv _ _ _ _ _ _ _ _ _ _ _ _ _ _ H) as [outputs [Hrun [Hlen Hscore]]].
  destruct (@score_inv _ _ _ _ _ _ _ _ Hscore)
    as [losses [stacked [t [_ [Hr [Hm [Hv _]]]]]]].
  assert (Hout : forall o, In o outputs ->
            shape (fst (fst o)) = [b; image_channels color; h - h mod 4; w - w mod 4]
            /\ shape (snd (fst o)) = [b; n; latent_side color h; latent_side color w]
            /\ shape (snd o) = [b; n; latent_side color h; latent_side color w]).
  { intros [[rec mu] logvar] Ho.
    destruct (@outputs_from_models self x wd wd' outputs (rec, mu, logvar) Hrun Ho)
      as [v [wk [wk' [Hv' Hf]]]].
    rewrite Forall_forall in Hall.
    destruct (@VAE_forward_shapes_core HL n color v x rec mu logvar b h w wk wk'
                (Hall v Hv') Hx Hh Hw Hf) as [H1 [H2 H3]].
    cbn [fst snd]. auto. }
  rewrite <- Hlen.
  rewrite (@stack_of_shape _ recs [b; image_channels color; h - h mod 4; w - w mod 4] Hr),
          (@stack_of_shape _ mus [b; n; latent_side color h; latent_side color w] Hm),
          (@stack_of_shape _ logvars [b; n; latent_side color h; latent_side color w] Hv).
  - rewrite !length_map. repeat split.
  - apply Forall_forall. intros u Hu. apply in_map_iff in Hu.
    destruct Hu as [o [<- Ho]]. now apply Hout.
  - apply Forall_forall. intros u Hu. apply in_map_iff in Hu.
    destruct Hu as [o [<- Ho]]. now apply Hout.
  - apply Forall_forall. intros u Hu. apply in_map_iff in Hu.
    destruct Hu as [o [<- Ho]]. now apply Hout.
Qed.

End Shapes.

(** ** Layers that only size their output

    Layers that refuse what the library refuses and otherwise return zeros of
    the size the library gives. *)

Definition sized_conv2d (c : Conv2d) (x : Tensor) : result Tensor :=
  match shape x with
  | [b; ch; h; w] =>
      match spec_shape (Conv2d_spec c) (ch, h, w) with
      | Some o => Ok (full (batch_shape b o) 0%R)
      | None => Raise (RuntimeError "the convolution does not take this input")
      end
  | _ => Raise (RuntimeError "Expected 4D input")
  end.

Definition sized_convT (c : ConvTranspose2d) (x : Tensor) : result Tensor :=
  match shape x with
  | [b; ch; h; w] =>
      match spec_shape (ConvTranspose2d_spec c) (ch, h, w) with
      | Some o => Ok (full (batch_shape b o) 0%R)
      | None => Raise (RuntimeError "the convolution does not take this input")
      end
  | _ => Raise (RuntimeError "Expected 4D input")
  end.

Definition sized_bn (n : BatchNorm2d) (x : Tensor) : result Tensor :=
  match shape x with
  | [b; ch; h; w] =>
      match spec_shape (BNS (bn_features n)) (ch, h, w) with
      | Some o => Ok x
      | None => Raise (RuntimeError "running_mean should contain as many elements as channels")
      end
  | _ => Raise (RuntimeError "Expected 4D input")
  end.

(** A batch of one grey image of 28 by 28 pixels. *)
Definition toy_image : Tensor := full [1; 1; 28; 28] 0%R.

Lemma sized_layers_respect_shapes : layers_respect_shapes sized_conv2d sized_convT sized_bn.
Proof.
  repeat split.
  - intros c x y b [[ch h] w] o Hf Hx Hs. unfold sized_conv2d in Hf.
    rewrite Hx in Hf. cbn [batch_shape] in Hf. rewrite Hs in Hf. now injection Hf as <-.
  - intros c x y b [[ch h] w] o Hf Hx Hs. unfold sized_convT in Hf.
    rewrite Hx in Hf. cbn [batch_shape] in Hf. rewrite Hs in Hf. now injection Hf as <-.
  - intros n x y b [[ch h] w] o Hf Hx Hs. unfold sized_bn in Hf.
    rewrite Hx in Hf. cbn [batch_shape] in Hf. rewrite Hs in Hf. injection Hf as <-.
    cbn [spec_shape] in Hs. destruct (ch =? bn_features n); [|discriminate].
    injection Hs as <-. exact Hx.
Qed.

Definition sized_forward (v : VAE) : M nat (Tensor * Tensor * Tensor) :=
  VAE_forward toy_randn sized_conv2d sized_convT sized_bn v toy_image.

(** X11 on the instance: a grey VAE with two latent channels on one image of
    28 by 28 pixels. *)
Lemma VAE_forward_image_shapes_witness :
  match fst (VAE_init toy_init 2 false toy_world) with
  | Ok v =>
      match fst (sized_forward v toy_world) with
      | Ok (rec, mu, logvar) =>
          shape mu = [1; 2; 1; 1] /\ shape logvar = shape mu /\ shape rec = [1; 1; 28; 28]
      | Raise _ => False
      end
  | Raise _ => False
  end.
Proof.
  assert (H1 : is_ok (fst (VAE_init toy_init 2 false toy_world)) = true) by (lazy; reflexivity).
  assert (H2 : is_ok (rbind (fst (VAE_init toy_init 2 false toy_world))
                        (fun v => fst (sized_forward v toy_world))) = true)
    by (lazy; reflexivity).
  destruct (fst (VAE_init toy_init 2 false toy_world)) as [v0|e] eqn:E0; [|discriminate H1].
  cbn [rbind] in H2.
  assert (E0' : VAE_init toy_init 2 false toy_world
                = (Ok v0, snd (VAE_init toy_init 2 false toy_world))).
  { rewrite <- E0. apply surjective_pairing. }
  destruct (sized_forward v0 toy_world) as [[[[rec mu] logvar]|e] w2] eqn:E;
    [|discriminate H2].
  cbn [fst].
  destruct (@VAE_forward_image_shapes nat toy_randn toy_init sized_conv2d sized_convT sized_bn
              sized_layers_respect_shapes 2 false v0 toy_image rec mu logvar 1 28 28
              toy_world w2
              (ex_intro _ toy_world (ex_intro _ _ (ex_intro _ v0 (conj E0' eq_refl))))
              eq_refl (le_n 28) (le_n 28) E) as [Hm [Hl [Hr _]]].
  split; [exact Hm|]. split; [exact Hl|exact Hr].
Defined.

Abbreviation sized_abs_forward :=
  (ABS_forward toy_randn sized_conv2d sized_convT sized_bn toy_loss).

Abbreviation sized_abs_new :=
  (ABS_new toy_init 3 1%R None None (Some (fun _ : list PyVal => VAE_init toy_init 2 false))
     None).

Lemma models_built_like :
  forall (n : nat) (color : bool) (l : list nat) (w w' : World nat) (ms : list VAE),
    mapM (fun _ => VAE_init toy_init n color) l w = (Ok ms, w') ->
    Forall (built_like toy_init n color) ms.
Proof.
  intros n color l. induction l as [|a l IH]; intros w w' ms H.
  - simpl in H. injection H as <- _. constructor.
  - simpl in H. unfold bind in H.
    destruct (VAE_init toy_init n color w) as [[v|e] w1] eqn:E; [|discriminate].
    destruct (mapM (fun _ => VAE_init toy_init n color) l w1) as [[ms'|e] w2] eqn:El;
      [|discriminate].
    injection H as <- _. constructor; [|eapply IH; eauto].
    exists w, w1, v. split; [exact E|reflexivity].
Qed.

Lemma ABS_new_built_like :
  forall (k n : nat) (color : bool) (beta : R) (w w' : World nat) (self : ABS),
    ABS_new toy_init k beta None None (Some (fun _ : list PyVal => VAE_init toy_init n color))
      None w = (Ok self, w') ->
    Forall (built_like toy_init n color) (base_models self)
    /\ length (base_models self) = k.
Proof.
  intros k n color beta w w' self H.
  unfold ABS_new, ABS_init, bind, default in H.
  destruct (mapM (fun _ : nat => VAE_init toy_init n color) (seq 0 k) w)
    as [[ms|e] w1] eqn:Em; [|discriminate H].
  injection H as <- _. cbn [base_models]. split.
  - exact (@models_built_like n color (seq 0 k) w w1 ms Em).
  - rewrite (@mapM_length _ _ _ _ _ _ _ _ Em). apply length_seq.
Qed.

(** X12 on the instance: three grey VAEs with two latent channels on one image
    of 28 by 28 pixels. *)
Lemma ABS_forward_image_shapes_witness :
  match fst (sized_abs_new toy_world) with
  | Ok self =>
      match fst (sized_abs_forward self toy_image toy_world) with
      | Ok (logits, recs, mus, logvars) =>
          shape recs = [3; 1; 1; 28; 28] /\ shape mus = [3; 1; 2; 1; 1]
          /\ shape logvars = shape mus
      | Raise _ => False
      end
  | Raise _ => False
  end.
Proof.
  assert (H1 : is_ok (fst (sized_abs_new toy_world)) = true) by (lazy; reflexivity).
  assert (H2 : is_ok (rbind (fst (sized_abs_new toy_world))
                        (fun self => fst (sized_abs_forward self toy_image toy_world))) = true)
    by (lazy; reflexivity).
  destruct (fst (sized_abs_new toy_world)) as [self|e] eqn:E0; [|discriminate H1].
  cbn [rbind] in H2.
  assert (E0' : sized_abs_new toy_world = (Ok self, snd (sized_abs_new toy_world))).
  { rewrite <- E0. apply surjective_pairing. }
  destruct (@ABS_new_built_like 3 2 false 1%R toy_world (snd (sized_abs_new toy_world)) self E0')
    as [Hall Hlen].
  destruct (sized_abs_forward self toy_image toy_world)
    as [[[[[logits recs] mus] logvars]|e] w2] eqn:E;
    [|discriminate H2].
  cbn [fst].
  destruct (@ABS_forward_image_shapes nat toy_randn toy_init sized_conv2d sized_convT
              sized_bn toy_loss sized_layers_respect_shapes 2 false self toy_image
              logits recs mus logvars 1 28 28 toy_world w2 Hall eq_refl (le_n 28) (le_n 28) E)
    as [Hr [Hm Hl]].
  rewrite Hlen in Hr, Hm. split; [exact Hr|]. split; [exact Hm|exact Hl].
Defined.
